(** * llmDirector: actions, the director and the result flattener

    A shallow embedding of
      - [llm_director/base/blocks.py]      (Action, Split, Condition, Termination),
      - [llm_director/base/director.py]    (Director),
      - [llm_director/utils/director_utils.py] (flatten_results),
    followed by the properties of the specification that were checked
    against it. *)

From stdpp Require Import gmap strings list.
From Stdlib Require Import ZArith Lia.

Set Warnings "-register-all".

Local Open Scope string_scope.
Local Open Scope list_scope.
Local Open Scope Z_scope.

(** ** Python values

    The payloads are [Any] in the source.  The fragment of Python values
    that the three files build or inspect: [None], booleans, integers,
    strings, lists, tuples, dictionaries with string keys (in insertion
    order, as Python keeps them), and the coroutine objects
    [self.__call__(next_event_name, r)] that [_handle_listener] puts in
    its [chain]. *)

Inductive value : Type :=
| VNone
| VBool (b : bool)
| VInt (z : Z)
| VStr (s : string)
| VList (l : list value)
| VTuple (l : list value)
| VDict (d : list (string * value))
| VCoro (event_name : string) (data : value).

(** [isinstance(v, list)] *)
Definition is_list (v : value) : bool :=
  match v with VList _ => true | _ => false end.

(** ** Exceptions

    Every exception below derives from Python's [Exception], so each is
    caught by [except Exception].  [CoreLogicError] stands for the
    exceptions of user code (an overridden [forward], a parser). *)

Inductive exn : Type :=
| Exception (msg : string)
| AssertionError (msg : string)
| ValueError (msg : string)
| KeyError (key : string)
| TypeError (msg : string)
| CoreLogicError (code : nat).

(** The names the specification gives to the errors of the source. *)

(** blocks.py:62 *)
Definition InitializationError (name : string) : exn :=
  Exception ("Action '" +:+ name +:+
    "' has not been initialized properly, remember to call super().__init__(name) in the constructor").

(** blocks.py:116 *)
Definition TypeMismatch : exn :=
  ValueError "Split action expects list-type data.".

(** director.py:47 *)
Definition AlreadySubscribedError (action_name event_name : string) : exn :=
  Exception ("Action '" +:+ action_name +:+
    "' already exists and is subscribed to '" +:+ event_name +:+ "'").

(** director.py:50 *)
Definition DuplicateNameError (action_name : string) : exn :=
  Exception ("Action '" +:+ action_name +:+
    "' already exists. Consider renaming the action, using add_subscription for existing block, or remove and add the action again.").

(** director.py:70 and director.py:87 *)
Definition UnknownActionError (action_name : string) : exn :=
  AssertionError ("Action '" +:+ action_name +:+
    "' does not exist, please subscribe it first").

(** ** The world an action runs in

    An action's core logic is arbitrary user code: it may keep state of
    its own (of type [U]) and may raise.  The world also keeps the
    observable history of a run: each call of a listener, each call of
    [forward] and each [asyncio.sleep]. *)

Inductive event : Type :=
| EvCall (name : string) (data : value)      (* listener(data) *)
| EvForward (name : string) (data : value)   (* self.forward(data) *)
| EvSleep (delay : Z).                       (* asyncio.sleep(delay) *)

Record world (U : Type) : Type := World {
  ustate : U;
  trace : list event
}.
Arguments World {U} _ _.
Arguments ustate {U} _.
Arguments trace {U} _.

(** ** Computations

    A computation over a state [S] returns, raises, or never comes back:
    [Blocked] is a coroutine waiting for a permit of the semaphore that
    no one will release, [OutOfFuel] is the bound of the model on the
    depth of recursive dispatch. *)
Inductive outcome (A : Type) : Type :=
| Ret (a : A)
| Raise (e : exn)
| Blocked
| OutOfFuel.
Arguments Ret {A} _.
Arguments Raise {A} _.
Arguments Blocked {A}.
Arguments OutOfFuel {A}.

Definition M (S A : Type) : Type := S -> outcome A * S.

Definition ret {S A} (a : A) : M S A := fun s => (Ret a, s).
Definition raise {S A} (e : exn) : M S A := fun s => (Raise e, s).
Definition bind {S A B} (c : M S A) (k : A -> M S B) : M S B :=
  fun s => match c s with
           | (Ret a, s') => k a s'
           | (Raise e, s') => (Raise e, s')
           | (Blocked, s') => (Blocked, s')
           | (OutOfFuel, s') => (OutOfFuel, s')
           end.
(** [try: body except Exception as e: handler(e)] *)
Definition try_except {S A} (body : M S A) (handler : exn -> M S A) : M S A :=
  fun s => match body s with
           | (Raise e, s') => handler e s'
           | r => r
           end.
(** a pure step that may raise (a parser, a subscript) *)
Definition lift {S A} (r : exn + A) : M S A :=
  fun s => (match r with inr a => Ret a | inl e => Raise e end, s).
Definition emit {U} (ev : event) : M (world U) unit :=
  fun w => (Ret tt, World (ustate w) (trace w ++ [ev])).
(** user code over the user state *)
Definition user {U A} (f : U -> (exn + A) * U) : M (world U) A :=
  fun w => let '(r, u') := f (ustate w) in
           (match r with inr a => Ret a | inl e => Raise e end,
            World u' (trace w)).

Notation "x <- c ;; k" := (bind c (fun x => k))
  (at level 100, c at next level, right associativity).
Notation "c ;;; k" := (bind c (fun _ => k))
  (at level 100, right associativity).

(** ** blocks.py *)

(** The class of an object: which [BLOCK_TYPE], [forward] and [__call__]
    it gets.  A [Condition] carries its [condition] attribute. *)
Inductive block_class : Type :=
| ClsAction
| ClsSplit
| ClsCondition (condition : value -> bool)
| ClsTermination.

Definition BLOCK_TYPE (c : block_class) : string :=
  match c with
  | ClsAction => "Action"
  | ClsSplit => "Split"
  | ClsCondition _ => "Condition"
  | ClsTermination => "Termination"
  end.

(** An action object: its class and its attributes.  A user subclass
    that overrides [forward] is an object with [forward_override] set.
    [has_been_initialized_properly] is [hasattr(self,
    "has_been_initialized_properly")]: only [Action.__init__] sets it.
    [retry_on] is an exception class, given by its [isinstance] test. *)
Record block (U : Type) : Type := Block {
  cls : block_class;
  __name__ : string;
  parser : value -> exn + value;
  retry_count : Z;
  retry_delay : Z;
  retry_on : option (exn -> bool);
  has_been_initialized_properly : bool;
  forward_override : option (value -> U -> (exn + value) * U)
}.
Arguments Block {U} _ _ _ _ _ _ _ _.
Arguments cls {U} _.
Arguments __name__ {U} _.
Arguments parser {U} _.
Arguments retry_count {U} _.
Arguments retry_delay {U} _.
Arguments retry_on {U} _.
Arguments has_been_initialized_properly {U} _.
Arguments forward_override {U} _.

Section Blocks.
Context {U : Type}.

(** [Action.__init__]; [c] and [fwd] say which object is being
    initialised (its class, its overridden [forward] if any). *)
Definition Action_init (c : block_class)
    (fwd : option (value -> U -> (exn + value) * U))
    (name : string) (parser : option (value -> exn + value))
    (retry_count retry_delay : Z) (retry_on : option (exn -> bool))
    : exn + block U :=
  if decide (name = "Termination") then
    inl (AssertionError
      "Action name cannot be 'Termination' (reserved for Termination action block)")
  else if decide (name = "Save") then
    inl (AssertionError
      "Action name cannot be 'Save' (reserved for Save action block)")
  else
    inr (Block c name
           (match parser with Some p => p | None => fun x => inr x end)
           retry_count retry_delay retry_on true fwd).

(** [Split.__init__(self, name)]: [super().__init__(name)] *)
Definition Split_init (fwd : option (value -> U -> (exn + value) * U))
    (name : string) : exn + block U :=
  Action_init ClsSplit fwd name None 0 0 None.

(** [Condition.__init__(self, name, condition)] *)
Definition Condition_init (fwd : option (value -> U -> (exn + value) * U))
    (name : string) (condition : value -> bool) : exn + block U :=
  Action_init (ClsCondition condition) fwd name None 0 0 None.

(** [Termination.__init__(self)]: [super().__init__("Termination")] *)
Definition Termination_init (fwd : option (value -> U -> (exn + value) * U))
    : exn + block U :=
  Action_init ClsTermination fwd "Termination" None 0 0 None.

(** The [forward] of each class. *)
Definition Action_forward (data : value) : M (world U) value := ret data.

Definition Split_forward (data : value) : M (world U) value := ret data.

Definition Condition_forward (condition : value -> bool) (data : value)
    : M (world U) value :=
  if condition data then Action_forward data else ret data.

Definition Termination_forward (data : value) : M (world U) value := ret VNone.

(** [self.forward(data)]: the override of a user subclass if there is
    one, the class's own [forward] otherwise. *)
Definition forward (self : block U) (data : value) : M (world U) value :=
  emit (EvForward (__name__ self) data) ;;;
  match forward_override self with
  | Some f => user (f data)
  | None =>
      match cls self with
      | ClsAction => Action_forward data
      | ClsSplit => Split_forward data
      | ClsCondition condition => Condition_forward condition data
      | ClsTermination => Termination_forward data
      end
  end.

(** [self.retry_on is None or isinstance(e, self.retry_on)] *)
Definition retryable (self : block U) (e : exn) : bool :=
  match retry_on self with
  | None => true
  | Some is_instance => is_instance e
  end.

(** [result = await self.forward(data); parsed_result =
    self.parser(result); return parsed_result] *)
Definition attempt (self : block U) (data : value) : M (world U) value :=
  result <- forward self data ;;
  parsed_result <- lift (parser self result) ;;
  ret parsed_result.

(** blocks.py:64-77, [for _ in range(n): try ... except ... else: ...] *)
Fixpoint retry_loop (self : block U) (data : value) (n : nat) : M (world U) value :=
  match n with
  | S n' =>
      try_except (attempt self data)
        (fun e =>
           if retryable self e then
             emit (EvSleep (retry_delay self)) ;;;
             retry_loop self data n'
           else raise e)
  | O => attempt self data
  end.

(** [Action.__call__] *)
Definition Action_call (self : block U) (data : value) : M (world U) value :=
  if negb (has_been_initialized_properly self) then
    raise (InitializationError (__name__ self))
  else retry_loop self data (Z.to_nat (retry_count self)).

(** [Split.__call__] *)
Definition Split_call (self : block U) (data : value) : M (world U) value :=
  output <- forward self data ;;
  if negb (is_list output) then raise TypeMismatch
  else ret output.

(** [listener(data)]: [Split] overrides [__call__], [Condition] and
    [Termination] inherit [Action.__call__]. *)
Definition call (self : block U) (data : value) : M (world U) value :=
  match cls self with
  | ClsSplit => Split_call self data
  | _ => Action_call self data
  end.

End Blocks.

(** ** Dictionaries, subscripts and iteration *)

(** [key in d] and [d[key]] on an insertion-ordered dictionary *)
Fixpoint dict_get (d : list (string * value)) (key : string) : option value :=
  match d with
  | [] => None
  | (k, v) :: d' => if String.eqb k key then Some v else dict_get d' key
  end.

(** [d[key] = v]: an existing key keeps its place, a new one goes last *)
Fixpoint dict_set (d : list (string * value)) (key : string) (v : value)
    : list (string * value) :=
  match d with
  | [] => [(key, v)]
  | (k, x) :: d' =>
      if String.eqb k key then (k, v) :: d' else (k, x) :: dict_set d' key v
  end.

(** [v[key]] for a string [key]: a dictionary without the key raises
    [KeyError]; no other value of the fragment takes a string subscript. *)
Definition getitem (v : value) (key : string) : exn + value :=
  match v with
  | VDict d =>
      match dict_get d key with
      | Some x => inr x
      | None => inl (KeyError key)
      end
  | _ => inl (TypeError "subscript by a string on a value that is not a dictionary")
  end.

(** [key in v], after [v[...]] succeeded ([v] is a dictionary) *)
Definition contains (v : value) (key : string) : bool :=
  match v with
  | VDict d => match dict_get d key with Some _ => true | None => false end
  | _ => false
  end.

Definition is_none (v : value) : bool :=
  match v with VNone => true | _ => false end.

Fixpoint chars (s : string) : list value :=
  match s with
  | EmptyString => []
  | String c s' => VStr (String c EmptyString) :: chars s'
  end.

(** The elements [for x in v] goes through. *)
Definition iter_value (v : value) : exn + list value :=
  match v with
  | VList l => inr l
  | VTuple l => inr l
  | VStr s => inr (chars s)
  | VDict d => inr (map (fun kv => VStr (fst kv)) d)
  | _ => inl (TypeError "object is not iterable")
  end.

(** ** director_utils.py *)

(** The body of [for result in results], on the list built so far. *)
Fixpoint flatten_loop (results : list value) (final_results : list value)
    : exn + list value :=
  match results with
  | [] => inr final_results
  | result :: rest =>
      match getitem result "event_name" with
      | inl e => inl e
      | inr event_name =>
          match getitem result "result" with
          | inl e => inl e
          | inr res =>
              let current_result :=
                dict_set (dict_set [] "event_name" event_name) "result" res in
              let final_results := final_results ++ [VDict current_result] in
              if contains result "chain" then
                match getitem result "chain" with
                | inl e => inl e
                | inr chain =>
                    if negb (is_none chain) then
                      match iter_value chain with
                      | inl e => inl e
                      | inr items => flatten_loop rest (final_results ++ items)
                      end
                    else flatten_loop rest final_results
                end
              else flatten_loop rest final_results
          end
      end
  end.

Definition flatten_results (results : list value) : exn + list value :=
  flatten_loop results [].

(** ** director.py *)

(** Listeners are objects, compared by identity ([==] and [in] on
    objects without [__eq__]): a listener is a reference into the store
    of action objects. *)
Definition ref : Type := nat.

Record Director : Type := MkDirector {
  listeners : gmap string (list ref);
  logs : list string;
  max_logs : nat;               (* deque(maxlen=max_logs) *)
  semaphore : nat;              (* the permits left *)
  depth_first : bool;
  flatten : bool;               (* self.flatten_results *)
  actions : gmap string ref
}.

(** [Director.__init__]; [deque(maxlen=...)] and [asyncio.Semaphore(...)]
    refuse a negative argument. *)
Definition Director_init (max_concurrent_actions max_logs : Z)
    (depth_first flatten_results : bool) : exn + Director :=
  if bool_decide (max_logs < 0) then
    inl (ValueError "maxlen must be non-negative")
  else if bool_decide (max_concurrent_actions < 0) then
    inl (ValueError "Semaphore initial value must be >= 0")
  else
    inr (MkDirector ∅ [] (Z.to_nat max_logs) (Z.to_nat max_concurrent_actions)
           depth_first flatten_results ∅).

(** [self.logs.append(message)] on a bounded deque: the oldest entries
    go once the capacity is exceeded. *)
Definition log_append (d : Director) (message : string) : Director :=
  let l := logs d ++ [message] in
  MkDirector (listeners d) (drop (length l - max_logs d)%nat l) (max_logs d)
    (semaphore d) (depth_first d) (flatten d) (actions d).

(** [l.remove(x)]: the first occurrence goes; [ValueError] without one. *)
Fixpoint list_remove (x : ref) (l : list ref) : exn + list ref :=
  match l with
  | [] => inl (ValueError "list.remove(x): x not in list")
  | y :: l' =>
      if bool_decide (y = x) then inr l'
      else match list_remove x l' with
           | inr r => inr (y :: r)
           | inl e => inl e
           end
  end.

Section Subscriptions.
Context {U : Type}.
(** The store of action objects. *)
Context (heap : ref -> block U).

(** [Director.subscribe].  Both [raise] come before any mutation, so a
    failed call leaves the director as it was. *)
Definition subscribe (event_name : string) (listener : ref) (d : Director)
    : exn + Director :=
  let action_name := __name__ (heap listener) in
  if match actions d !! action_name with
     | Some registered =>
         bool_decide (listener = registered) &&
         match listeners d !! event_name with
         | Some subscribers => bool_decide (listener ∈ subscribers)
         | None => false
         end
     | None => false
     end
  then inl (AlreadySubscribedError action_name event_name)
  else if match actions d !! action_name with
          | Some registered => bool_decide (listener ≠ registered)
          | None => false
          end
  then inl (DuplicateNameError action_name)
  else
    let actions' := <[action_name := listener]> (actions d) in
    let listeners' :=
      match listeners d !! event_name with
      | Some _ => listeners d
      | None => <[event_name := []]> (listeners d)
      end in
    let listeners'' :=
      <[event_name := default [] (listeners' !! event_name) ++ [listener]]>
        listeners' in
    inr (MkDirector listeners'' (logs d) (max_logs d) (semaphore d)
           (depth_first d) (flatten d) actions').

(** [Director.add_subscription] *)
Definition add_subscription (event_name action_name : string) (d : Director)
    : exn + Director :=
  match actions d !! action_name with
  | None => inl (UnknownActionError action_name)
  | Some listener =>
      let listeners' :=
        match listeners d !! event_name with
        | Some _ => listeners d
        | None => <[event_name := []]> (listeners d)
        end in
      let listeners'' :=
        <[event_name := default [] (listeners' !! event_name) ++ [listener]]>
          listeners' in
      inr (MkDirector listeners'' (logs d) (max_logs d) (semaphore d)
             (depth_first d) (flatten d) (actions d))
  end.

(** [Director.remove_subscription] *)
Definition remove_subscription (event_name action_name : string) (d : Director)
    : exn + Director :=
  match actions d !! action_name with
  | None => inl (UnknownActionError action_name)
  | Some listener =>
      match listeners d !! event_name with
      | Some subscribers =>
          match list_remove listener subscribers with
          | inl e => inl e
          | inr subscribers' =>
              inr (MkDirector (<[event_name := subscribers']> (listeners d))
                     (logs d) (max_logs d) (semaphore d)
                     (depth_first d) (flatten d) (actions d))
          end
      | None => inr d
      end
  end.

(** [Director.get_subscriptions] *)
Definition get_subscriptions (event_name : string) (d : Director)
    : list string :=
  match listeners d !! event_name with
  | Some subscribers => map (fun listener => __name__ (heap listener)) subscribers
  | None => []
  end.

End Subscriptions.

(** ** Dispatch

    [Director.__call__] runs on one event loop.  The model is the run of
    one top-level call: a task made by [asyncio.create_task] runs, in
    creation order, as soon as its creator awaits, and a listener runs
    to its end before the next one starts (the interleaving of sibling
    listeners at their own suspension points is not modelled).  The
    coroutines of [chain] are plain coroutine objects: each one starts
    when it is awaited. *)

Record dstate (U : Type) : Type := DState {
  director : Director;
  wld : world U
}.
Arguments DState {U} _ _.
Arguments director {U} _.
Arguments wld {U} _.

(** A pending recursive dispatch [self.__call__(event_name, data)]. *)
Definition pending : Type := (string * value)%type.

Definition coro (p : pending) : value := VCoro (fst p) (snd p).

(** The tuple [(result, chain)] that [_handle_listener] returns. *)
Definition completion_value (c : value * list pending) : value :=
  VTuple [fst c; VList (map coro (snd c))].

(** The record [{"event_name": ..., "result": ..., "chain": ...}]. *)
Definition chain_record (event_name : string) (result output : value) : value :=
  VDict [("event_name", VStr event_name); ("result", result); ("chain", output)].

Section Dispatch.
Context {U : Type}.
Context (heap : ref -> block U).

(** An action's computation, run inside the director's. *)
Definition in_world {A} (c : M (world U) A) : M (dstate U) A :=
  fun s => let '(r, w') := c (wld s) in (r, DState (director s) w').

(** [Director.log] *)
Definition log (message : string) : M (dstate U) unit :=
  fun s => (Ret tt, DState (log_append (director s) message) (wld s)).

(** [async with self.semaphore]: one permit taken on entry, given back
    when the body returns or raises. *)
Definition acquire : M (dstate U) unit :=
  fun s =>
    match semaphore (director s) with
    | O => (Blocked, s)
    | S n =>
        let d := director s in
        (Ret tt, DState (MkDirector (listeners d) (logs d) (max_logs d) n
                           (depth_first d) (flatten d) (actions d)) (wld s))
    end.

Definition release (s : dstate U) : dstate U :=
  let d := director s in
  DState (MkDirector (listeners d) (logs d) (max_logs d) (S (semaphore d))
            (depth_first d) (flatten d) (actions d)) (wld s).

Definition with_semaphore {A} (body : M (dstate U) A) : M (dstate U) A :=
  acquire ;;;
  fun s => match body s with
           | (Ret a, s') => (Ret a, release s')
           | (Raise e, s') => (Raise e, release s')
           | r => r
           end.

(** [Director._handle_listener] *)
Definition _handle_listener (listener : ref) (data : value)
    : M (dstate U) (value * list pending) :=
  in_world (emit (EvCall (__name__ (heap listener)) data)) ;;;
  result <- in_world (call (heap listener) data) ;;
  let next_event_name := __name__ (heap listener) in
  if String.eqb (BLOCK_TYPE (cls (heap listener))) "Split" then
    items <- lift (iter_value result) ;;
    ret (result, map (fun r => (next_event_name, r)) items)
  else
    ret (result, [(next_event_name, result)]).

(** [asyncio.create_task(c)]: the task runs and keeps what it returned
    or raised until it is awaited. *)
Definition create_task {A} (c : M (dstate U) A) : M (dstate U) (exn + A) :=
  fun s => match c s with
           | (Ret a, s') => (Ret (inr a), s')
           | (Raise e, s') => (Ret (inl e), s')
           | (Blocked, s') => (Blocked, s')
           | (OutOfFuel, s') => (OutOfFuel, s')
           end.

Section Body.
(** The recursive call [self.__call__]. *)
Context (Director_call : string -> value -> M (dstate U) value).

(** [for process in chain_results: output = await process; ...
    return_results.append(result)] *)
Fixpoint await_chain (event_name : string) (result : value)
    (chain_results : list pending) (return_results : list value)
    : M (dstate U) (list value) :=
  match chain_results with
  | [] => ret return_results
  | process :: rest =>
      output <- Director_call (fst process) (snd process) ;;
      await_chain event_name result rest
        (return_results ++ [chain_record event_name result output])
  end.

(** director.py:124-137, the loop over [self.listeners[event_name]].
    [data] is the variable of that name: the depth-first branch assigns
    to it. *)
Fixpoint listener_loop (subscribers : list ref) (data : value)
    (return_results : list value)
    (events : list (string * (exn + value * list pending)))
    : M (dstate U) (list value * list (string * (exn + value * list pending))) :=
  match subscribers with
  | [] => ret (return_results, events)
  | listener :: rest =>
      action_completion <- create_task (_handle_listener listener data) ;;
      d <- (fun s => (Ret (director s), s)) ;;
      if depth_first d then
        completed <- lift action_completion ;;
        let data := completion_value completed in
        return_results <-
          await_chain (__name__ (heap listener)) (fst completed) (snd completed)
            return_results ;;
        listener_loop rest data return_results events
      else
        listener_loop rest data return_results
          (events ++ [(__name__ (heap listener), action_completion)])
  end.

(** director.py:139-145, the loop over [events] *)
Fixpoint event_loop
    (events : list (string * (exn + value * list pending)))
    (return_results : list value) : M (dstate U) (list value) :=
  match events with
  | [] => ret return_results
  | event :: rest =>
      completed <- lift (snd event) ;;
      return_results <-
        await_chain (fst event) (fst completed) (snd completed)
          return_results ;;
      event_loop rest return_results
  end.

(** The body of [async with self.semaphore] *)
Definition call_body (event_name : string) (data : value)
    : M (dstate U) value :=
  d <- (fun s => (Ret (director s), s)) ;;
  match listeners d !! event_name with
  | Some subscribers =>
      log ("Processing events for '" +:+ event_name +:+ "'") ;;;
      looped <- listener_loop subscribers data [] [] ;;
      return_results <- event_loop (snd looped) (fst looped) ;;
      log ("Events for '" +:+ event_name +:+ "' completed") ;;;
      d <- (fun s => (Ret (director s), s)) ;;
      if flatten d then
        flat <- lift (flatten_results return_results) ;;
        ret (VList flat)
      else ret (VList return_results)
  | None =>
      log ("No listeners for '" +:+ event_name +:+ "'") ;;;
      ret VNone
  end.

End Body.

(** [Director.__call__]; [fuel] bounds the depth of the recursion
    through the event graph, which Python does not bound. *)
Fixpoint Director_call (fuel : nat) (event_name : string) (data : value)
    : M (dstate U) value :=
  match fuel with
  | O => fun s => (OutOfFuel, s)
  | S fuel' =>
      with_semaphore (call_body (Director_call fuel') event_name data)
  end.

End Dispatch.

(** * Observations and concrete objects

    What the statements below measure on a run, and the objects their
    examples run. *)

(** The number of calls of [forward] in a history. *)
Fixpoint count_forward (t : list event) : nat :=
  match t with
  | [] => 0%nat
  | EvForward _ _ :: t' => S (count_forward t')
  | _ :: t' => count_forward t'
  end.

(** [n] failed protected attempts, each followed by the delay. *)
Fixpoint protected_attempts {U} (self : block U) (data : value) (n : nat)
    : list event :=
  match n with
  | O => []
  | S n' =>
      EvForward (__name__ self) data :: EvSleep (retry_delay self)
        :: protected_attempts self data n'
  end.

(** An invocation that is the shared routine [Action.__call__]: the
    initialization check, the retry policy and the parser. *)
Definition follows_shared_contract {U} (self : block U) : Prop :=
  forall data w, call self data w = Action_call self data w.

(** [lambda x: x], the default parser *)
Definition identity_parser : value -> exn + value := fun x => inr x.

(** A core logic that raises on every call; the user state counts the
    calls and numbers the errors. *)
Definition raising_forward : value -> nat -> (exn + value) * nat :=
  fun _ calls => (inl (CoreLogicError calls), S calls).

(** [isinstance(e, ValueError)] *)
Definition is_ValueError (e : exn) : bool :=
  match e with ValueError _ => true | _ => false end.

(** [Action("A", retry_count=2, retry_delay=1)] with a raising [forward] *)
Definition failing_action : block nat :=
  Block ClsAction "A" identity_parser 2 1 None true (Some raising_forward).

(** [Action("A", retry_count=3, retry_delay=1, retry_on=ValueError)] with
    a raising [forward] *)
Definition picky_action : block nat :=
  Block ClsAction "A" identity_parser 3 1 (Some is_ValueError) true
    (Some raising_forward).

(** [Action("A")] *)
Definition plain_action : block nat :=
  Block ClsAction "A" identity_parser 0 0 None true None.

(** [Split("S")] *)
Definition plain_split : block nat :=
  Block ClsSplit "S" identity_parser 0 0 None true None.

(** A [Split] whose [parser] attribute is [lambda x: None] *)
Definition parsing_split : block nat :=
  Block ClsSplit "S" (fun _ => inr VNone) 0 0 None true None.

(** A [Split] whose [retry_count] attribute is 2, with a raising
    [forward] *)
Definition retrying_split : block nat :=
  Block ClsSplit "S" identity_parser 2 0 None true (Some raising_forward).

Definition w0 : world nat := World 0%nat [].

(** ** Chain-result record trees

    The records of the specification, typed: the [chain] field is
    absent, null, or a sequence of records. *)

Inductive chain_of (T : Type) : Type :=
| Absent
| Null
| Records (l : list T).
Arguments Absent {T}.
Arguments Null {T}.
Arguments Records {T} _.

Inductive tree : Type :=
| Tree (event_name : string) (result : value) (chain : chain_of tree).

(** The [{event_name, result}] pair of the flat shape. *)
Definition pair_value (p : string * value) : value :=
  VDict [("event_name", VStr (fst p)); ("result", snd p)].

(** The Python value of a record tree. *)
Fixpoint encode (t : tree) : value :=
  match t with
  | Tree event_name result chain =>
      VDict ([("event_name", VStr event_name); ("result", result)] ++
             match chain with
             | Absent => []
             | Null => [("chain", VNone)]
             | Records l => [("chain", VList (map encode l))]
             end)
  end.

Definition root (t : tree) : string * value :=
  match t with Tree event_name result _ => (event_name, result) end.

Definition children (t : tree) : list tree :=
  match t with
  | Tree _ _ (Records l) => l
  | _ => []
  end.

Definition chain (t : tree) : chain_of tree :=
  match t with Tree _ _ c => c end.

(** The depth-first pre-order walk of a tree: the pair of a record,
    then the walks of the records of its chain, in order. *)
Fixpoint preorder (t : tree) : list (string * value) :=
  match t with
  | Tree event_name result chain =>
      (event_name, result) ::
      match chain with
      | Records l => concat (map preorder l)
      | _ => []
      end
  end.

(** C3 as the specification states it: on every sequence of record
    trees the flattener returns the pairs of the pre-order walk. *)
Definition flattens_to_preorder (ts : list tree) : Prop :=
  flatten_results (map encode ts)
    = inr (map pair_value (concat (map preorder ts))).

(** What one pass over a record emits: its pair, then the elements of
    its chain as they are. *)
Definition one_level (t : tree) : list value :=
  pair_value (root t) :: map encode (children t).

(** A -> B -> C, each with one record in its chain, the last one null *)
Definition three_hops : list tree :=
  [Tree "A" (VInt 1)
     (Records [Tree "B" (VInt 2) (Records [Tree "C" (VInt 3) Null])])].

(** A -> B, as the dispatcher returns it without flattening *)
Definition two_hops : list tree :=
  [Tree "A" (VInt 1) (Records [Tree "B" (VInt 2) Null])].

(** A, with a chain that is already flat *)
Definition flat_chain : list tree :=
  [Tree "A" (VInt 1)
     (Records [Tree "B" (VInt 2) Absent; Tree "C" (VInt 3) Absent])].

(** ** The registry of a director *)

(** Every listener of every subscriber sequence is registered under its
    own name, and the entry of that name is that very listener. *)
Definition registered_inv {U} (heap : ref -> block U) (d : Director) : Prop :=
  forall event_name subscribers listener,
    listeners d !! event_name = Some subscribers ->
    listener ∈ subscribers ->
    actions d !! __name__ (heap listener) = Some listener.

(** The registry is keyed by the names of the objects themselves. *)
Definition keyed_by_name {U} (heap : ref -> block U) (d : Director) : Prop :=
  forall action_name listener,
    actions d !! action_name = Some listener ->
    __name__ (heap listener) = action_name.

Definition director_wf {U} (heap : ref -> block U) (d : Director) : Prop :=
  registered_inv heap d /\ keyed_by_name heap d.

(** The calls that change the subscriptions. *)
Inductive subscription_op : Type :=
| OpSubscribe (event_name : string) (listener : ref)
| OpAddSubscription (event_name action_name : string)
| OpRemoveSubscription (event_name action_name : string).

Definition apply_op {U} (heap : ref -> block U) (o : subscription_op)
    (d : Director) : exn + Director :=
  match o with
  | OpSubscribe event_name listener => subscribe heap event_name listener d
  | OpAddSubscription event_name action_name =>
      add_subscription event_name action_name d
  | OpRemoveSubscription event_name action_name =>
      remove_subscription event_name action_name d
  end.

(** A sequence of calls; one that raises leaves the director as it was. *)
Fixpoint run_ops {U} (heap : ref -> block U) (ops : list subscription_op)
    (d : Director) : Director :=
  match ops with
  | [] => d
  | o :: ops' =>
      match apply_op heap o d with
      | inr d' => run_ops heap ops' d'
      | inl _ => run_ops heap ops' d
      end
  end.

(** Three objects: [Action("A")] twice (two instances of one name) and
    [Split("S")]. *)
Definition three_objects : ref -> block nat :=
  fun r => match r with
           | 2%nat => plain_split
           | _ => plain_action
           end.

Definition fresh_director : Director :=
  MkDirector ∅ [] 1000 100 false false ∅.

(** ** Runs of the dispatcher *)

(** The calls of listeners in a history, in order. *)
Fixpoint calls (t : list event) : list (string * value) :=
  match t with
  | [] => []
  | EvCall name data :: t' => (name, data) :: calls t'
  | _ :: t' => calls t'
  end.

(** [Action("A")], [Action("B")], [Split("S")] and, for every other
    reference, [Action("C")]. *)
Definition stage : ref -> block nat :=
  fun r => match r with
           | 0%nat => Block ClsAction "A" identity_parser 0 0 None true None
           | 1%nat => Block ClsAction "B" identity_parser 0 0 None true None
           | 2%nat => plain_split
           | _ => Block ClsAction "C" identity_parser 0 0 None true None
           end.

(** [Director(100, 1000, depth_first, flatten_results)] after
    [subscribe("start", A)] and [subscribe("start", B)]. *)
Definition two_subscribers (depth_first flatten_results : bool) : Director :=
  run_ops stage [OpSubscribe "start" 0%nat; OpSubscribe "start" 1%nat]
    (MkDirector ∅ [] 1000 100 depth_first flatten_results ∅).

(** The same director after [subscribe("start", S)] and
    [subscribe("start", A)], for the [Split]. *)
Definition split_then_action (depth_first flatten_results : bool) : Director :=
  run_ops stage [OpSubscribe "start" 2%nat; OpSubscribe "start" 0%nat]
    (MkDirector ∅ [] 1000 100 depth_first flatten_results ∅).

(** A listener that some event has among its subscribers. *)
Definition subscribed (L : gmap string (list ref)) (listener : ref) : Prop :=
  exists event_name subscribers,
    L !! event_name = Some subscribers /\ listener ∈ subscribers.

(** A record that the fan-out of a subscriber accounts for: it carries
    the name of a subscribed listener and a result which, if the
    listener is a [Split], is a list that is not empty. *)
Definition from_fanout {U} (heap : ref -> block U)
    (L : gmap string (list ref)) (record : value) : Prop :=
  exists listener result,
    subscribed L listener /\
    getitem record "event_name" = inr (VStr (__name__ (heap listener))) /\
    getitem record "result" = inr result /\
    (cls (heap listener) = ClsSplit -> exists x xs, result = VList (x :: xs)).

(** What a dispatch returns: [None], or a list of such records. *)
Definition good_output {U} (heap : ref -> block U)
    (L : gmap string (list ref)) (v : value) : Prop :=
  v = VNone \/
  exists records, v = VList records /\ Forall (from_fanout heap L) records.

(** A record of [return_results] before flattening. *)
Definition assembled {U} (heap : ref -> block U)
    (L : gmap string (list ref)) (record : value) : Prop :=
  exists listener result output,
    subscribed L listener /\
    record = chain_record (__name__ (heap listener)) result output /\
    (cls (heap listener) = ClsSplit -> exists x xs, result = VList (x :: xs)) /\
    good_output heap L output.

(** A task of [events]. *)
Definition spawned {U} (heap : ref -> block U)
    (L : gmap string (list ref))
    (event : string * (exn + value * list pending)) : Prop :=
  match snd event with
  | inl _ => True
  | inr (result, chain) =>
      exists listener,
        subscribed L listener /\
        fst event = __name__ (heap listener) /\
        (chain <> [] -> cls (heap listener) = ClsSplit ->
         exists x xs, result = VList (x :: xs))
  end.


(** A computation of the director only adds to the history. *)
Definition grows {U A} (c : M (dstate U) A) : Prop :=
  forall s r s', c s = (r, s') ->
    exists t, trace (wld s') = trace (wld s) ++ t.

(** The director with its log extended, as a dispatch that found no
    subscriber leaves it. *)
Definition no_listeners_message (event_name : string) : string :=
  "No listeners for '" +:+ event_name +:+ "'".

(** An outcome that came back: a return or a raise. *)
Definition settled {A} (r : outcome A) : Prop :=
  match r with
  | Ret _ | Raise _ => True
  | Blocked | OutOfFuel => False
  end.

(** [Director(max_concurrent_actions=permits, max_logs=1000,
    depth_first=...)] after [subscribe("start", A)]. *)
Definition one_subscriber (permits : nat) (depth_first : bool) : Director :=
  run_ops stage [OpSubscribe "start" 0%nat]
    (MkDirector ∅ [] 1000 permits depth_first false ∅).

(** [Director()] after [subscribe("start", S)] for [S = Split("S")]. *)
Definition split_subscriber : Director :=
  run_ops stage [OpSubscribe "start" 2%nat]
    (MkDirector ∅ [] 1000 100 false false ∅).

(** ** The two result shapes of one dispatch *)

(** A director with its [flatten_results] flag set to [b]. *)
Definition with_flatten (b : bool) (d : Director) : Director :=
  MkDirector (listeners d) (logs d) (max_logs d) (semaphore d)
    (depth_first d) b (actions d).

(** The flattened image of a nested result: [None] for [None], the
    pairs of the pre-order walk for a sequence of record trees. *)
Definition flat_image (nested flat : value) : Prop :=
  (nested = VNone /\ flat = VNone) \/
  exists ts,
    nested = VList (map encode ts) /\
    flat = VList (map pair_value (concat (map preorder ts))).

(** The records that the two runs assemble for one recursive dispatch. *)
Definition twin_records (nested flat : value) : Prop :=
  exists event_name result output_n output_f,
    nested = chain_record event_name result output_n /\
    flat = chain_record event_name result output_f /\
    flat_image output_n output_f.

Definition rel_outcome {A} (R : A -> A -> Prop) (r_n r_f : outcome A) : Prop :=
  match r_n, r_f with
  | Ret a_n, Ret a_f => R a_n a_f
  | Raise e_n, Raise e_f => e_n = e_f
  | Blocked, Blocked => True
  | OutOfFuel, OutOfFuel => True
  | _, _ => False
  end.

(** Two computations, one run without and one with flattening, from the
    same director and world: they end in the same director and world,
    with related outcomes. *)
Definition sim {U A} (R : A -> A -> Prop) (c_n c_f : M (dstate U) A) : Prop :=
  forall d w, exists d' w' r_n r_f,
    c_n (DState (with_flatten false d) w)
      = (r_n, DState (with_flatten false d') w') /\
    c_f (DState (with_flatten true d) w)
      = (r_f, DState (with_flatten true d') w') /\
    rel_outcome R r_n r_f.

(** [Director(depth_first, flatten_results)] wired as a pipeline:
    [A] on "start", [B] on "A", and [C] on "B". *)
Definition pipeline (depth_first flatten_results : bool) : Director :=
  run_ops stage
    [OpSubscribe "start" 0%nat; OpSubscribe "A" 1%nat; OpSubscribe "B" 3%nat]
    (MkDirector ∅ [] 1000 100 depth_first flatten_results ∅).

(** ** Further observations *)

(** The number of [asyncio.sleep] in a history. *)
Fixpoint count_sleep (t : list event) : nat :=
  match t with
  | [] => 0%nat
  | EvSleep _ :: t' => S (count_sleep t')
  | _ :: t' => count_sleep t'
  end.

(** The first [k] attempts from [w] raise retryable errors, each is
    followed by the delay, and the next attempt returns [v] in [w']. *)
Fixpoint fails_then_succeeds {U} (self : block U) (data : value) (k : nat)
    (w : world U) (v : value) (w' : world U) : Prop :=
  match k with
  | O => attempt self data w = (Ret v, w')
  | S k' =>
      exists e w1,
        attempt self data w = (Raise e, w1) /\
        retryable self e = true /\
        fails_then_succeeds self data k'
          (World (ustate w1) (trace w1 ++ [EvSleep (retry_delay self)])) v w'
  end.

(** A core logic that raises on its first two calls and returns its
    input from the third call on. *)
Definition flaky_forward : value -> nat -> (exn + value) * nat :=
  fun data calls =>
    if (calls <? 2)%nat then (inl (CoreLogicError calls), S calls)
    else (inr data, S calls).

(** [Action("A", retry_count=5, retry_delay=1)] with that core logic *)
Definition flaky_action : block nat :=
  Block ClsAction "A" identity_parser 5 1 None true (Some flaky_forward).

(** [Action("A", parser=p, retry_count=2)] where [p] raises on every
    result *)
Definition strict_parser_action : block nat :=
  Block ClsAction "A" (fun _ => inl (ValueError "unparsable")) 2 0 None true
    None.

(** [Condition("C", lambda x: False)] as the constructor builds it *)
Definition never_condition : block nat :=
  Block (ClsCondition (fun _ => false)) "C" (fun x => inr x) 0 0 None true
    None.

(** ** Records as the flattener reads them *)

(** A record that the flattener accepts: a dictionary with the keys
    "event_name" and "result", whose "chain", when it has one that is
    not [None], can be iterated. *)
Definition record_ok (r : value) : bool :=
  match r with
  | VDict d =>
      match dict_get d "event_name", dict_get d "result" with
      | Some _, Some _ =>
          match dict_get d "chain" with
          | None => true
          | Some chain =>
              is_none chain ||
              match iter_value chain with inr _ => true | inl _ => false end
          end
      | _, _ => false
      end
  | _ => false
  end.


(** What the flattener emits for a record it accepts. *)
Definition emitted (r : value) : list value :=
  match r with
  | VDict d =>
      match dict_get d "event_name", dict_get d "result" with
      | Some event_name, Some result =>
          VDict [("event_name", event_name); ("result", result)] ::
          match dict_get d "chain" with
          | None => []
          | Some chain =>
              if is_none chain then []
              else match iter_value chain with
                   | inr items => items
                   | inl _ => []
                   end
          end
      | _, _ => []
      end
  | _ => []
  end.

(** A record with a key more than the two of a pair, and one without
    the key "result". *)
Definition tagged_record : value :=
  VDict [("tag", VInt 0); ("result", VInt 1); ("event_name", VStr "A")].

Definition no_result_record : value :=
  VDict [("event_name", VStr "B"); ("chain", VNone)].

(** ** What a dispatch leaves as it found it *)

Definition is_settled {A} (r : outcome A) : bool :=
  match r with
  | Ret _ | Raise _ => true
  | Blocked | OutOfFuel => false
  end.

(** A computation keeps a relation [R] between the state it starts in
    and the state it ends in, from every state that satisfies [Pre];
    [R] may ask more of a computation that came back. *)
Definition keeps {U A} (Pre : dstate U -> Prop)
    (R : bool -> dstate U -> dstate U -> Prop) (c : M (dstate U) A) : Prop :=
  forall s r s', Pre s -> c s = (r, s') -> Pre s' /\ R (is_settled r) s s'.

(** The configuration of the director is unchanged, the permits are
    back when the computation came back, and the log stays within its
    capacity. *)
Definition same_configuration {U} (came_back : bool) (s s' : dstate U) : Prop :=
  listeners (director s') = listeners (director s) /\
  actions (director s') = actions (director s) /\
  depth_first (director s') = depth_first (director s) /\
  flatten (director s') = flatten (director s) /\
  max_logs (director s') = max_logs (director s) /\
  (came_back = true ->
   semaphore (director s') = semaphore (director s)) /\
  ((length (logs (director s)) <= max_logs (director s))%nat ->
   (length (logs (director s')) <= max_logs (director s'))%nat).

(** The history grows by calls of subscribed listeners only. *)
Definition calls_subscribers {U} (heap : ref -> block U)
    (L : gmap string (list ref)) (came_back : bool) (s s' : dstate U) : Prop :=
  exists t,
    trace (wld s') = trace (wld s) ++ t /\
    Forall (fun c => exists listener,
              subscribed L listener /\ fst c = __name__ (heap listener))
      (calls t).

(** The pipeline with a log of two entries. *)
Definition tight_log_pipeline : Director :=
  run_ops stage
    [OpSubscribe "start" 0%nat; OpSubscribe "A" 1%nat; OpSubscribe "B" 3%nat]
    (MkDirector ∅ [] 2 100 false false ∅).

(** A listener whose core logic raises, and a store with it first:
    reference 0 is that listener "F", the others are as in [stage]. *)
Definition failing_listener : block nat :=
  Block ClsAction "F" identity_parser 0 0 None true (Some raising_forward).

Definition failing_stage : ref -> block nat :=
  fun r => match r with
           | 0%nat => failing_listener
           | _ => stage r
           end.

(** [subscribe("start", F)], [subscribe("start", B)] *)
Definition failing_first (depth_first : bool) : Director :=
  run_ops failing_stage [OpSubscribe "start" 0%nat; OpSubscribe "start" 1%nat]
    (MkDirector ∅ [] 1000 100 depth_first false ∅).

(** [subscribe("start", A)] then [remove_subscription("start", "A")] *)
Definition emptied_event : Director :=
  run_ops stage [OpSubscribe "start" 0%nat; OpRemoveSubscription "start" "A"]
    (MkDirector ∅ [] 1000 100 false false ∅).

(** ** The order of the records *)

(** The two mode flags of a director. *)
Definition flags {U} (s : dstate U) : bool * bool :=
  (depth_first (director s), flatten (director s)).

(** What the key "event_name" of each record holds. *)
Definition names_of (records : list value) : list (exn + value) :=
  map (fun r => getitem r "event_name") records.

(** [counts] records of the first name, then of the second, ... *)
Definition runs_of (names : list string) (counts : list nat)
    : list (exn + value) :=
  concat (zip_with (fun n k => replicate k (inr (VStr n))) names counts).

(** A task of [events] and the subscriber it was made for. *)
Definition task_of {U} (heap : ref -> block U) (listener : ref)
    (task : string * (exn + value * list pending)) : Prop :=
  fst task = __name__ (heap listener) /\
  forall result chain,
    snd task = inr (result, chain) ->
    cls (heap listener) <> ClsSplit -> length chain = 1%nat.

(** [Split("S")] and [Action("A")] on "start", [B] on "S". *)
Definition fan_then_step : Director :=
  run_ops stage
    [OpSubscribe "start" 2%nat; OpSubscribe "start" 0%nat;
     OpSubscribe "S" 1%nat]
    (MkDirector ∅ [] 1000 100 false false ∅).

(** ** Objects that skipped [Action.__init__] *)



(** [Action("A", parser=lambda x: [x], retry_count=3)] *)
Definition wrapping_parser : value -> exn + value := fun x => inr (VList [x]).

Definition wrapping_action : block nat :=
  Block ClsAction "A" wrapping_parser 3 0 None true None.

(** * Properties *)

(** ** Properties of blocks.py *)

Section BlockFacts.
Context {U : Type}.
Implicit Types (self : block U) (data : value) (w : world U).

Lemma count_forward_app (t1 t2 : list event) :
  count_forward (t1 ++ t2) = (count_forward t1 + count_forward t2)%nat.
Proof.
  induction t1 as [|ev t1 IH]; simpl; [done|].
  destruct ev; simpl; lia.
Qed.

Lemma count_forward_protected self data n :
  count_forward (protected_attempts self data n) = n.
Proof. induction n as [|n IH]; simpl; congruence. Qed.

(** A call of [forward] adds itself, and nothing else, to the history. *)
Lemma forward_trace self data w r w' :
  forward self data w = (r, w') ->
  trace w' = trace w ++ [EvForward (__name__ self) data].
Proof.
  unfold forward, bind, emit. simpl.
  destruct (forward_override self) as [f|].
  - unfold user. simpl. destruct (f data (ustate w)) as [r0 u'].
    intros [= _ <-]. done.
  - destruct (cls self); simpl;
      unfold Action_forward, Split_forward, Condition_forward,
        Termination_forward, Action_forward, ret;
      try (destruct (condition data)); intros [= _ <-]; done.
Qed.

(** An attempt whose [forward] raises is that raise. *)
Lemma attempt_raise self data w e w' :
  forward self data w = (Raise e, w') ->
  attempt self data w = (Raise e, w').
Proof. intros H. unfold attempt, bind. by rewrite H. Qed.


(** A non-retryable error on the first attempt leaves the loop at once. *)
Lemma retry_loop_first_not_retryable self data n w e w' :
  forward self data w = (Raise e, w') ->
  retryable self e = false ->
  retry_loop self data (S n) w = (Raise e, w').
Proof.
  intros Hf Hre. simpl. unfold try_except.
  rewrite (attempt_raise _ _ _ _ _ Hf). by rewrite Hre.
Qed.

End BlockFacts.

(** An object is a [Split] or it is not. *)
Lemma classic_cls (c : block_class) : c = ClsSplit \/ c <> ClsSplit.
Proof. destruct c; (by left) || (by right). Qed.

(** ** The constructors *)

Section Constructors.
Context {U : Type}.

(** C1. [Termination()] does not succeed: [Termination.__init__] hands
    the name "Termination" to [Action.__init__], whose first assertion
    refuses exactly that name.  The core logic of the class does return
    [None] on every input, but no object of the class is ever built by
    its constructor. *)
Theorem Termination_init_fails (fwd : option (value -> U -> (exn + value) * U)) :
  Termination_init fwd =
    inl (AssertionError
      "Action name cannot be 'Termination' (reserved for Termination action block)")
  /\ forall (data : value) (w : world U),
       Termination_forward data w = (Ret VNone, w).
Proof. split; reflexivity. Qed.

(** What the other constructors build. *)
Lemma Split_init_inv fwd name (self : block U) :
  Split_init fwd name = inr self ->
  self = Block ClsSplit name (fun x => inr x) 0 0 None true fwd.
Proof.
  unfold Split_init, Action_init.
  repeat case_decide; congruence.
Qed.

End Constructors.

(** ** The retry policy *)

Section Retry.
Context {U : Type}.
Implicit Types (self : block U) (data : value) (w : world U).


(** C6. An initialised action with retry count [n > 0] and a retry
    filter, whose core logic raises on the first attempt an error that
    the filter does not match: the call raises that error, and the
    history grows by that one attempt only (no second attempt, no
    delay). *)
Theorem non_retryable_error_propagates self data w e w' is_instance :
  has_been_initialized_properly self = true ->
  0 < retry_count self ->
  retry_on self = Some is_instance ->
  forward self data w = (Raise e, w') ->
  is_instance e = false ->
  call self data w = (Raise e, w') /\
  trace w' = trace w ++ [EvForward (__name__ self) data] /\
  count_forward (trace w') = S (count_forward (trace w)).
Proof.
  intros Hinit Hn Hon Hf He.
  assert (Htr := forward_trace _ _ _ _ _ Hf).
  split; [|split; [done|]].
  - assert (Hre : retryable self e = false).
    { unfold retryable. by rewrite Hon. }
    destruct (Z.to_nat (retry_count self)) as [|n] eqn:En; [lia|].
    destruct (classic_cls (cls self)) as [Hs|Hs].
    + unfold call. rewrite Hs. unfold Split_call, bind. by rewrite Hf.
    + assert (Hcall : call self data = Action_call self data).
      { unfold call. destruct (cls self); congruence. }
      rewrite Hcall. unfold Action_call. rewrite Hinit, En. simpl.
      by apply retry_loop_first_not_retryable.
  - rewrite Htr, count_forward_app. simpl. lia.
Qed.

End Retry.


(** The run of [failing_action]: three attempts, two delays, and the
    error of the third attempt. *)
Example failing_action_run :
  call failing_action VNone w0 =
    (Raise (CoreLogicError 2),
     World 3%nat [EvForward "A" VNone; EvSleep 1; EvForward "A" VNone;
                  EvSleep 1; EvForward "A" VNone]).
Proof. reflexivity. Qed.

Lemma non_retryable_error_propagates_witness :
  (has_been_initialized_properly picky_action = true /\
   0 < retry_count picky_action /\
   retry_on picky_action = Some is_ValueError /\
   forward picky_action VNone w0
     = (Raise (CoreLogicError 0), World 1%nat [EvForward "A" VNone]) /\
   is_ValueError (CoreLogicError 0) = false) /\
  call picky_action VNone w0
    = (Raise (CoreLogicError 0), World 1%nat [EvForward "A" VNone]) /\
  trace (World 1%nat [EvForward "A" VNone])
    = trace w0 ++ [EvForward (__name__ picky_action) VNone] /\
  count_forward (trace (World 1%nat [EvForward "A" VNone]))
    = S (count_forward (trace w0)).
Proof.
  split.
  - repeat split; simpl; lia.
  - apply (non_retryable_error_propagates picky_action VNone w0
             (CoreLogicError 0) (World 1%nat [EvForward "A" VNone])
             is_ValueError);
      [reflexivity | simpl; lia | reflexivity | reflexivity | reflexivity].
Defined.

(** ** Further properties of the retry policy *)

Section RetryBound.
Context {U : Type}.
Implicit Types (self : block U) (data : value) (w : world U).

(** An attempt is one call of [forward] in the history. *)
Lemma attempt_trace self data w r w' :
  attempt self data w = (r, w') ->
  trace w' = trace w ++ [EvForward (__name__ self) data].
Proof.
  unfold attempt, bind.
  destruct (forward self data w) as [[v|e| |] w1] eqn:Hf;
    apply forward_trace in Hf.
  - unfold lift, ret. destruct (parser self v); intros [= _ <-]; done.
  - by intros [= _ <-].
  - by intros [= _ <-].
  - by intros [= _ <-].
Qed.

Lemma retry_loop_attempts self data n w r w' :
  retry_loop self data n w = (r, w') ->
  exists t,
    trace w' = trace w ++ t /\
    calls t = [] /\
    (1 <= count_forward t <= S n)%nat.
Proof.
  revert w. induction n as [|n IH]; intros w; simpl.
  - intros H. apply attempt_trace in H.
    exists [EvForward (__name__ self) data]. simpl. split; [done|]. split; [done|lia].
  - unfold try_except.
    destruct (attempt self data w) as [[v|e| |] w1] eqn:Ha;
      apply attempt_trace in Ha.
    2:{ destruct (retryable self e).
        - unfold bind, emit. intros H. apply IH in H as (t & Ht & Hc & Hn).
          simpl in Ht. rewrite Ha in Ht.
          exists ([EvForward (__name__ self) data; EvSleep (retry_delay self)] ++ t).
          split; [by rewrite Ht, <- !app_assoc|].
          split; [done|]. simpl. lia.
        - intros [= _ <-]. exists [EvForward (__name__ self) data]. simpl.
          split; [done|]. split; [done|lia]. }
    all: intros [= _ <-]; exists [EvForward (__name__ self) data]; simpl;
      split; [done|]; split; [done|lia].
Qed.

(** The shared routine makes at least one and at most [retry_count + 1]
    attempts, whatever the core logic does, and calls no listener. *)
Theorem Action_call_attempts_bounded self data w r w' :
  has_been_initialized_properly self = true ->
  Action_call self data w = (r, w') ->
  exists t,
    trace w' = trace w ++ t /\
    calls t = [] /\
    (1 <= count_forward t <= S (Z.to_nat (retry_count self)))%nat.
Proof.
  intros Hinit. unfold Action_call. rewrite Hinit. simpl.
  apply retry_loop_attempts.
Qed.

(** Any call of a listener adds to the history, and adds no call of a
    listener. *)
Lemma call_trace self data w r w' :
  call self data w = (r, w') ->
  exists t, trace w' = trace w ++ t /\ calls t = [].
Proof.
  unfold call. intros H.
  assert (Hsplit : forall r w', Split_call self data w = (r, w') ->
            exists t, trace w' = trace w ++ t /\ calls t = []).
  { clear. intros r w'. unfold Split_call, bind.
    destruct (forward self data w) as [[v|e| |] w1] eqn:Hf;
      apply forward_trace in Hf; unfold raise, ret.
    - destruct (negb (is_list v)); intros [= _ <-]; eauto.
    - intros [= _ <-]; eauto.
    - intros [= _ <-]; eauto.
    - intros [= _ <-]; eauto. }
  assert (Haction : forall r w', Action_call self data w = (r, w') ->
            exists t, trace w' = trace w ++ t /\ calls t = []).
  { clear. intros r w'. unfold Action_call.
    destruct (has_been_initialized_properly self); simpl.
    - intros H. apply retry_loop_attempts in H as (t & ? & ? & _). eauto.
    - intros [= _ <-]. exists []. by rewrite app_nil_r. }
  destruct (cls self); eauto.
Qed.

(** An action comes back: it is the dispatcher that blocks. *)
Lemma forward_settled self data w r w' :
  forward self data w = (r, w') -> settled r.
Proof.
  unfold forward, bind, emit. simpl.
  destruct (forward_override self) as [f|].
  - unfold user. simpl. destruct (f data (ustate w)) as [[e|v] u'];
      by intros [= <- _].
  - destruct (cls self); simpl;
      unfold Action_forward, Split_forward, Condition_forward,
        Termination_forward, Action_forward, ret;
      try (destruct (condition data)); by intros [= <- _].
Qed.

Lemma attempt_settled self data w r w' :
  attempt self data w = (r, w') -> settled r.
Proof.
  unfold attempt, bind.
  destruct (forward self data w) as [[v|e| |] w1] eqn:Hf;
    apply forward_settled in Hf; try done.
  - unfold lift, ret. destruct (parser self v); by intros [= <- _].
  - by intros [= <- _].
Qed.

Lemma retry_loop_settled self data n w r w' :
  retry_loop self data n w = (r, w') -> settled r.
Proof.
  revert w. induction n as [|n IH]; intros w; simpl.
  - apply attempt_settled.
  - unfold try_except.
    destruct (attempt self data w) as [[v|e| |] w1] eqn:Ha;
      apply attempt_settled in Ha; try done.
    + by intros [= <- _].
    + destruct (retryable self e).
      * unfold bind, emit. apply IH.
      * by intros [= <- _].
Qed.

Lemma call_settled self data w r w' :
  call self data w = (r, w') -> settled r.
Proof.
  assert (Hsplit : Split_call self data w = (r, w') -> settled r).
  { unfold Split_call, bind.
    destruct (forward self data w) as [[v|e| |] w1] eqn:Hf;
      apply forward_settled in Hf; try done; unfold raise, ret.
    - destruct (negb (is_list v)); by intros [= <- _].
    - by intros [= <- _]. }
  assert (Haction : Action_call self data w = (r, w') -> settled r).
  { unfold Action_call.
    destruct (has_been_initialized_properly self); simpl.
    - apply retry_loop_settled.
    - by intros [= <- _]. }
  unfold call. destruct (cls self); eauto.
Qed.

End RetryBound.

Lemma Action_call_attempts_bounded_witness :
  has_been_initialized_properly failing_action = true /\
  exists t,
    trace (snd (Action_call failing_action VNone w0)) = trace w0 ++ t /\
    calls t = [] /\
    (1 <= count_forward t <= S (Z.to_nat (retry_count failing_action)))%nat.
Proof.
  split; [reflexivity|].
  apply (Action_call_attempts_bounded failing_action VNone w0
           (fst (Action_call failing_action VNone w0)));
    reflexivity.
Defined.

(** ** The invocation of each class *)

(** C4, as stated, fails on [Split]: [Split.__call__] does not go
    through [Action.__call__].  A [Split] with a parser returns the
    unparsed output, and a [Split] with a retry count makes one attempt
    where the shared routine makes three. *)
Lemma Split_call_not_shared_contract :
  call parsing_split (VList []) w0
    = (Ret (VList []), World 0%nat [EvForward "S" (VList [])]) /\
  Action_call parsing_split (VList []) w0
    = (Ret VNone, World 0%nat [EvForward "S" (VList [])]) /\
  call retrying_split VNone w0
    = (Raise (CoreLogicError 0), World 1%nat [EvForward "S" VNone]) /\
  Action_call retrying_split VNone w0
    = (Raise (CoreLogicError 2),
       World 3%nat [EvForward "S" VNone; EvSleep 0; EvForward "S" VNone;
                    EvSleep 0; EvForward "S" VNone]) /\
  ~ follows_shared_contract parsing_split /\
  ~ follows_shared_contract retrying_split.
Proof.
  repeat split; try reflexivity.
  - intros H. specialize (H (VList []) w0). discriminate H.
  - intros H. specialize (H VNone w0). discriminate H.
Qed.

Section Invocation.
Context {U : Type}.
Implicit Types (self : block U) (data : value) (w : world U).

(** C4, amended.  Objects of the classes [Action], [Condition] and
    [Termination] are invoked through the one shared routine
    (initialization check, retry policy, parser).  An initialised
    [Split] has its own invocation: one call of its core logic, no retry
    and no parser, then the check that the output is a list.  On a [Split] as its
    constructor builds it (retry count 0, identity parser) that is the
    shared routine followed by the list check. *)
Theorem invocation_by_class :
  (forall self, cls self <> ClsSplit -> follows_shared_contract self) /\
  (forall self data w,
     cls self = ClsSplit -> has_been_initialized_properly self = true ->
     exists r w',
       forward self data w = (r, w') /\
       call self data w =
         (match r with
          | Ret output => if is_list output then Ret output
                          else Raise TypeMismatch
          | other => other
          end, w')) /\
  (forall fwd name self data w, Split_init fwd name = inr self ->
     call self data w =
       (output <- Action_call self data ;;
        if is_list output then ret output else raise TypeMismatch) w).
Proof.
  split; [|split].
  - intros self Hs data w. unfold call. destruct (cls self); congruence.
  - intros self data w Hs _.
    destruct (forward self data w) as [r w'] eqn:Hf. exists r, w'.
    split; [done|]. unfold call. rewrite Hs. unfold Split_call, bind.
    rewrite Hf. destruct r as [output|e| |]; try done.
    by destruct (is_list output).
  - intros fwd __name__ self data w Hinit.
    apply Split_init_inv in Hinit. subst self.
    unfold call, Action_call, Split_call. simpl.
    unfold attempt, bind, lift, ret, raise.
    destruct (forward _ data w) as [[output|e| |] w']; simpl; try done.
    by destruct (is_list output).
Qed.

End Invocation.

Lemma invocation_by_class_witness :
  (cls plain_action <> ClsSplit /\ follows_shared_contract plain_action) /\
  ((cls plain_split = ClsSplit /\
    has_been_initialized_properly plain_split = true) /\
   exists r w',
     forward plain_split (VInt 7) w0 = (r, w') /\
     call plain_split (VInt 7) w0 =
       (match r with
        | Ret output => if is_list output then Ret output
                        else Raise TypeMismatch
        | other => other
        end, w')) /\
  (Split_init None "S" = inr plain_split /\
   call plain_split (VInt 7) w0 =
     (output <- Action_call plain_split (VInt 7) ;;
      if is_list output then ret output else raise TypeMismatch) w0).
Proof.
  destruct (@invocation_by_class nat) as (H1 & H2 & H3).
  split; [|split].
  - split; [discriminate|]. apply H1. discriminate.
  - split; [split; reflexivity|]. apply H2; reflexivity.
  - split; [reflexivity|]. apply (H3 None "S"). reflexivity.
Defined.

(** ** The result flattener *)

(** C3, as stated, fails from depth two on: the elements of a chain are
    appended as they are.  With three hops the pair of [C] never shows
    and [B] keeps its chain; with two hops [B] keeps its null chain
    field. *)
Lemma flatten_results_not_recursive :
  flatten_results (map encode three_hops)
    = inr [pair_value ("A", VInt 1);
           encode (Tree "B" (VInt 2) (Records [Tree "C" (VInt 3) Null]))] /\
  concat (map preorder three_hops)
    = [("A", VInt 1); ("B", VInt 2); ("C", VInt 3)] /\
  ~ flattens_to_preorder three_hops /\
  flatten_results (map encode two_hops)
    = inr [pair_value ("A", VInt 1); encode (Tree "B" (VInt 2) Null)] /\
  ~ flattens_to_preorder two_hops.
Proof.
  repeat split; try reflexivity.
  - intros H. unfold flattens_to_preorder in H. discriminate H.
  - intros H. unfold flattens_to_preorder in H. discriminate H.
Qed.

(** One pass of the loop over a record tree. *)
Lemma flatten_loop_encode (ts : list tree) (final_results : list value) :
  flatten_loop (map encode ts) final_results
    = inr (final_results ++ concat (map one_level ts)).
Proof.
  revert final_results.
  induction ts as [|[event_name result c] ts IH]; intros final_results.
  - simpl. by rewrite app_nil_r.
  - destruct c as [| |l]; simpl; rewrite IH; unfold one_level; simpl;
      f_equal; by rewrite <- ?app_assoc.
Qed.

(** A chain of flat pairs walks to itself. *)
Lemma preorder_flat (l : list tree) :
  Forall (fun t => chain t = Absent) l ->
  map pair_value (concat (map preorder l)) = map encode l.
Proof.
  induction 1 as [|[event_name result c] l Hc _ IH]; [done|].
  simpl in Hc. subst c. simpl. by rewrite IH.
Qed.

(** C3, amended.  The flattener emits, for each record in order, its
    pair followed by the elements of its chain as they are, when the
    chain is present and not null.  That is the pre-order walk when
    every chain holds flat pairs already, and the flattener returns an
    already-flat input, one with no chain field, as it is. *)
Theorem flatten_results_one_level :
  (forall ts : list tree,
     flatten_results (map encode ts) = inr (concat (map one_level ts))) /\
  (forall ts : list tree,
     Forall (fun t => Forall (fun t' => chain t' = Absent) (children t)) ts ->
     flattens_to_preorder ts) /\
  (forall pairs : list (string * value),
     flatten_results (map pair_value pairs) = inr (map pair_value pairs)).
Proof.
  split; [|split].
  - intros ts. unfold flatten_results. by rewrite flatten_loop_encode.
  - intros ts Hflat. unfold flattens_to_preorder, flatten_results.
    rewrite flatten_loop_encode. simpl. f_equal.
    induction Hflat as [|[event_name result c] ts Hc _ IH]; [done|].
    simpl. rewrite map_app, <- IH. unfold one_level at 1. simpl.
    f_equal. f_equal. destruct c as [| |l]; try done.
    simpl in Hc. by rewrite preorder_flat.
  - intros pairs.
    replace (map pair_value pairs)
      with (map encode (map (fun p => Tree (fst p) (snd p) Absent) pairs)).
    2:{ rewrite map_map. apply map_ext. by intros []. }
    unfold flatten_results. rewrite flatten_loop_encode. simpl. f_equal.
    induction pairs as [|[event_name result] pairs IH]; [done|].
    simpl. by rewrite IH.
Qed.

Lemma flatten_results_one_level_witness :
  flatten_results (map encode three_hops)
    = inr (concat (map one_level three_hops)) /\
  (Forall (fun t => Forall (fun t' => chain t' = Absent) (children t))
     flat_chain /\
   flattens_to_preorder flat_chain) /\
  flatten_results (map pair_value [("A", VInt 1); ("B", VInt 2)])
    = inr (map pair_value [("A", VInt 1); ("B", VInt 2)]).
Proof.
  destruct flatten_results_one_level as (H1 & H2 & H3).
  split; [apply H1|]. split; [|apply H3].
  assert (Hflat : Forall
    (fun t => Forall (fun t' => chain t' = Absent) (children t)) flat_chain).
  { repeat constructor. }
  split; [exact Hflat | exact (H2 flat_chain Hflat)].
Defined.

(** ** Subscriptions *)

Section SubscriptionFacts.
Context {U : Type} (heap : ref -> block U).
Implicit Types (d : Director) (listener : ref).

(** [if event_name not in self.listeners: self.listeners[event_name] = []]
    followed by the [append], in one update. *)
Lemma setdefault_append (m : gmap string (list ref)) event_name listener :
  let m' := match m !! event_name with
            | Some _ => m
            | None => <[event_name := []]> m
            end in
  <[event_name := default [] (m' !! event_name) ++ [listener]]> m'
  = <[event_name := default [] (m !! event_name) ++ [listener]]> m.
Proof.
  simpl. destruct (m !! event_name) as [subscribers|] eqn:E.
  - by rewrite E.
  - rewrite lookup_insert_eq. simpl. by rewrite insert_insert_eq.
Qed.

(** What a successful [subscribe] leaves. *)
Lemma subscribe_ok_inv event_name listener d d' :
  subscribe heap event_name listener d = inr d' ->
  d' = MkDirector
         (<[event_name :=
              default [] (listeners d !! event_name) ++ [listener]]>
            (listeners d))
         (logs d) (max_logs d) (semaphore d) (depth_first d) (flatten d)
         (<[__name__ (heap listener) := listener]> (actions d))
  /\ (forall registered,
        actions d !! __name__ (heap listener) = Some registered ->
        registered = listener).
Proof.
  unfold subscribe.
  destruct (actions d !! __name__ (heap listener)) as [registered|] eqn:Ereg.
  - destruct (bool_decide (listener = registered) && _); [done|].
    case_bool_decide as Hne; [done|].
    intros [= <-]. rewrite setdefault_append. split; [done|].
    intros ? [= <-]. destruct (decide (listener = registered)); [done|].
    by destruct Hne.
  - intros [= <-]. rewrite setdefault_append. split; [done|]. done.
Qed.

Lemma subscribe_preserves event_name listener d d' :
  director_wf heap d ->
  subscribe heap event_name listener d = inr d' ->
  director_wf heap d'.
Proof.
  intros [Hreg Hkey] Hsub.
  apply subscribe_ok_inv in Hsub as [-> Hsame].
  assert (Hold : forall ev subscribers l,
    listeners d !! ev = Some subscribers -> l ∈ subscribers ->
    <[__name__ (heap listener) := listener]> (actions d) !! __name__ (heap l)
      = Some l).
  { intros ev subscribers l Hsubs Hin.
    specialize (Hreg ev subscribers l Hsubs Hin).
    destruct (decide (__name__ (heap listener) = __name__ (heap l))) as [E|E].
    - rewrite E in Hsame. rewrite (Hsame _ Hreg), E.
      by rewrite lookup_insert_eq.
    - by rewrite lookup_insert_ne. }
  split.
  - intros ev subscribers l. simpl.
    destruct (decide (event_name = ev)) as [<-|Hne].
    + rewrite lookup_insert_eq. intros [= <-] Hin.
      apply elem_of_app in Hin as [Hin|Hin].
      * destruct (listeners d !! event_name) as [old|] eqn:E; simpl in Hin.
        -- by apply (Hold event_name old).
        -- by apply elem_of_nil in Hin.
      * apply list_elem_of_singleton in Hin as ->.
        by rewrite lookup_insert_eq.
    + rewrite lookup_insert_ne by done. apply Hold.
  - intros action_name l. simpl.
    destruct (decide (__name__ (heap listener) = action_name)) as [<-|Hne].
    + rewrite lookup_insert_eq. by intros [= <-].
    + rewrite lookup_insert_ne by done. apply Hkey.
Qed.

Lemma add_subscription_preserves event_name action_name d d' :
  director_wf heap d ->
  add_subscription event_name action_name d = inr d' ->
  director_wf heap d'.
Proof.
  intros [Hreg Hkey]. unfold add_subscription.
  destruct (actions d !! action_name) as [listener|] eqn:Ereg; [|done].
  intros [= <-]. rewrite setdefault_append. split.
  - intros ev subscribers l. simpl.
    destruct (decide (event_name = ev)) as [<-|Hne].
    + rewrite lookup_insert_eq. intros [= <-] Hin.
      apply elem_of_app in Hin as [Hin|Hin].
      * destruct (listeners d !! event_name) as [old|] eqn:E; simpl in Hin.
        -- by apply (Hreg event_name old).
        -- by apply elem_of_nil in Hin.
      * apply list_elem_of_singleton in Hin as ->.
        by rewrite (Hkey _ _ Ereg).
    + rewrite lookup_insert_ne by done. apply Hreg.
  - exact Hkey.
Qed.

Lemma list_remove_subset (x : ref) (l l' : list ref) (y : ref) :
  list_remove x l = inr l' -> y ∈ l' -> y ∈ l.
Proof.
  revert l'. induction l as [|z l IH]; intros l'; simpl; [done|].
  case_bool_decide.
  - intros [= <-] Hin. by apply elem_of_cons; right.
  - destruct (list_remove x l) as [e|r]; [done|].
    intros [= <-] Hin. apply elem_of_cons in Hin as [->|Hin].
    + by apply elem_of_cons; left.
    + apply elem_of_cons; right. by apply (IH r).
Qed.

Lemma remove_subscription_preserves event_name action_name d d' :
  director_wf heap d ->
  remove_subscription event_name action_name d = inr d' ->
  director_wf heap d'.
Proof.
  intros [Hreg Hkey]. unfold remove_subscription.
  destruct (actions d !! action_name) as [listener|] eqn:Ereg; [|done].
  destruct (listeners d !! event_name) as [subscribers|] eqn:Esub.
  - destruct (list_remove listener subscribers) as [e|subscribers'] eqn:Erm;
      [done|].
    intros [= <-]. split; [|exact Hkey].
    intros ev subs l. simpl.
    destruct (decide (event_name = ev)) as [<-|Hne].
    + rewrite lookup_insert_eq. intros [= <-] Hin.
      apply (Hreg event_name subscribers); [done|].
      by apply (list_remove_subset _ _ _ _ Erm).
    + rewrite lookup_insert_ne by done. apply Hreg.
  - by intros [= <-].
Qed.

Lemma apply_op_preserves o d d' :
  director_wf heap d -> apply_op heap o d = inr d' -> director_wf heap d'.
Proof.
  destruct o; simpl;
    eauto using subscribe_preserves, add_subscription_preserves,
      remove_subscription_preserves.
Qed.

Lemma Director_init_wf a b c e d0 :
  Director_init a b c e = inr d0 -> director_wf heap d0.
Proof.
  unfold Director_init. repeat case_bool_decide; try done.
  intros [= <-]. split.
  - intros ev subscribers l. simpl. by rewrite lookup_empty.
  - intros n l. simpl. by rewrite lookup_empty.
Qed.

Lemma run_ops_wf ops d :
  director_wf heap d -> director_wf heap (run_ops heap ops d).
Proof.
  revert d. induction ops as [|o ops IH]; intros d Hwf; simpl; [done|].
  destruct (apply_op heap o d) as [e|d'] eqn:E; [by apply IH|].
  apply IH. by apply (apply_op_preserves o d).
Qed.

End SubscriptionFacts.

Section SubscribeContract.
Context {U : Type} (heap : ref -> block U).
Implicit Types (d : Director) (listener : ref).

(** C7. [subscribe] raises the already-subscribed error when this very
    listener is the registered owner of its name and is among the
    subscribers of the event; it raises the duplicate-name error when
    another listener owns the name; in every other case it registers
    the listener under its own name and appends it to the subscribers
    of the event, after those already there. *)
Theorem subscribe_outcomes event_name listener d :
  (actions d !! __name__ (heap listener) = Some listener ->
   (exists subscribers,
      listeners d !! event_name = Some subscribers /\
      listener ∈ subscribers) ->
   subscribe heap event_name listener d
     = inl (AlreadySubscribedError (__name__ (heap listener)) event_name)) /\
  (forall other,
     actions d !! __name__ (heap listener) = Some other ->
     other <> listener ->
     subscribe heap event_name listener d
       = inl (DuplicateNameError (__name__ (heap listener)))) /\
  ((actions d !! __name__ (heap listener) = None \/
    (actions d !! __name__ (heap listener) = Some listener /\
     forall subscribers,
       listeners d !! event_name = Some subscribers ->
       listener ∉ subscribers)) ->
   exists d',
     subscribe heap event_name listener d = inr d' /\
     actions d' = <[__name__ (heap listener) := listener]> (actions d) /\
     listeners d' =
       <[event_name := default [] (listeners d !! event_name) ++ [listener]]>
         (listeners d) /\
     get_subscriptions heap event_name d' =
       get_subscriptions heap event_name d ++ [__name__ (heap listener)] /\
     (logs d', max_logs d', semaphore d', depth_first d', flatten d')
       = (logs d, max_logs d, semaphore d, depth_first d, flatten d)).
Proof.
  split; [|split].
  - intros Hreg (subscribers & Hsubs & Hin). unfold subscribe.
    rewrite Hreg, Hsubs.
    rewrite (bool_decide_eq_true_2 (listener = listener)) by done.
    by rewrite (bool_decide_eq_true_2 (listener ∈ subscribers)) by done.
  - intros other Hreg Hne. unfold subscribe. rewrite Hreg.
    rewrite (bool_decide_eq_false_2 (listener = other)) by congruence.
    simpl. by rewrite bool_decide_eq_true_2 by congruence.
  - intros Hfree.
    assert (Hok : exists d',
      subscribe heap event_name listener d = inr d').
    { unfold subscribe. destruct Hfree as [Hnone|[Hreg Hnot]].
      - rewrite Hnone. eauto.
      - rewrite Hreg. rewrite (bool_decide_eq_true_2 (listener = listener))
          by done.
        rewrite (bool_decide_eq_false_2 (listener <> listener)) by auto.
        destruct (listeners d !! event_name) as [subscribers|] eqn:E;
          simpl.
        + rewrite bool_decide_eq_false_2 by (by apply Hnot). eauto.
        + eauto. }
    destruct Hok as [d' Hok]. exists d'. split; [done|].
    apply subscribe_ok_inv in Hok as [-> _]. simpl.
    split; [done|]. split; [done|]. split; [|done].
    unfold get_subscriptions. simpl. rewrite lookup_insert_eq.
    destruct (listeners d !! event_name) as [subscribers|]; simpl; [|done].
    by rewrite map_app.
Qed.

(** C10. Each of [subscribe], [add_subscription] and
    [remove_subscription] keeps a registry that is keyed by the names of
    its objects and holds every subscriber; a new director has such a
    registry; so after any sequence of these calls, failed ones
    included, every listener of every subscriber sequence is registered
    under its own name, and the entry of that name is that listener. *)
Theorem subscriptions_stay_registered :
  (forall o d d',
     director_wf heap d -> apply_op heap o d = inr d' ->
     director_wf heap d') /\
  (forall max_concurrent_actions max_logs depth_first flatten_results d0 ops,
     Director_init max_concurrent_actions max_logs depth_first flatten_results
       = inr d0 ->
     registered_inv heap (run_ops heap ops d0)).
Proof.
  split.
  - apply apply_op_preserves.
  - intros a b c e d0 ops Hinit.
    apply (run_ops_wf heap ops d0). by apply (Director_init_wf heap a b c e).
Qed.

End SubscribeContract.

(** [subscribe("start", a)] on a new director, then the same call again,
    then the same name from another instance. *)
Example subscribe_twice :
  exists d1,
    subscribe three_objects "start" 0%nat fresh_director = inr d1 /\
    get_subscriptions three_objects "start" d1 = ["A"] /\
    subscribe three_objects "start" 0%nat d1
      = inl (AlreadySubscribedError "A" "start") /\
    subscribe three_objects "start" 1%nat d1
      = inl (DuplicateNameError "A").
Proof. eexists. repeat split; reflexivity. Qed.

Lemma subscribe_outcomes_witness :
  exists d',
    subscribe three_objects "start" 0%nat fresh_director = inr d' /\
    actions d' = <[__name__ (three_objects 0%nat) := 0%nat]> (actions fresh_director) /\
    listeners d' =
      <["start" := default [] (listeners fresh_director !! "start") ++ [0%nat]]>
        (listeners fresh_director) /\
    get_subscriptions three_objects "start" d' =
      get_subscriptions three_objects "start" fresh_director
        ++ [__name__ (three_objects 0%nat)] /\
    (logs d', max_logs d', semaphore d', depth_first d', flatten d')
      = (logs fresh_director, max_logs fresh_director,
         semaphore fresh_director, depth_first fresh_director,
         flatten fresh_director).
Proof.
  apply (subscribe_outcomes three_objects "start" 0%nat fresh_director).
  left. reflexivity.
Defined.

Lemma subscriptions_stay_registered_witness :
  Director_init 100 1000 false false = inr fresh_director /\
  registered_inv three_objects
    (run_ops three_objects
       [OpSubscribe "start" 0%nat; OpSubscribe "A" 2%nat;
        OpSubscribe "start" 1%nat; OpAddSubscription "S" "A";
        OpRemoveSubscription "start" "A"]
       fresh_director).
Proof.
  split; [reflexivity|].
  apply (proj2 (subscriptions_stay_registered three_objects)
           100 1000 false false fresh_director).
  reflexivity.
Defined.

(** ** Dispatch *)

(** Inversion of a [bind] that returned. *)
Lemma bind_Ret {S A B} (c : M S A) (k : A -> M S B) (s s' : S) (b : B) :
  bind c k s = (Ret b, s') ->
  exists a s1, c s = (Ret a, s1) /\ k a s1 = (Ret b, s').
Proof.
  unfold bind. destruct (c s) as [[a|e| |] s1]; try done. eauto.
Qed.

Lemma lift_Ret {S A} (r : exn + A) (s s' : S) (a : A) :
  lift r s = (Ret a, s') -> r = inr a /\ s' = s.
Proof. unfold lift. destruct r; intros [= <- <-]; auto. Qed.

Section DispatchFacts.
Context {U : Type} (heap : ref -> block U).
Implicit Types (s : dstate U) (listener : ref) (data : value).

(** A [Split] that returns, returns a list. *)
Lemma Split_call_returns_list (self : block U) data (w w' : world U) v :
  cls self = ClsSplit ->
  call self data w = (Ret v, w') ->
  exists l, v = VList l.
Proof.
  intros Hs. unfold call. rewrite Hs. unfold Split_call. intros H.
  apply bind_Ret in H as (output & w1 & _ & H).
  destruct output; simpl in H; try done.
  injection H as <- _. eauto.
Qed.

Lemma BLOCK_TYPE_Split (c : block_class) :
  String.eqb (BLOCK_TYPE c) "Split" = true <-> c = ClsSplit.
Proof. destruct c; simpl; split; done. Qed.

(** What [_handle_listener] returns: the director is untouched, and an
    empty output of a [Split] spawns no dispatch. *)
Lemma handle_listener_Ret listener data s result chain s' :
  _handle_listener heap listener data s = (Ret (result, chain), s') ->
  director s' = director s /\
  (cls (heap listener) <> ClsSplit ->
     chain = [(__name__ (heap listener), result)]) /\
  (cls (heap listener) = ClsSplit ->
     exists items,
       result = VList items /\
       chain = map (fun r => (__name__ (heap listener), r)) items).
Proof.
  unfold _handle_listener. intros H.
  apply bind_Ret in H as ([] & s1 & H1 & H).
  apply bind_Ret in H as (res & s2 & H2 & H).
  assert (Hd : director s2 = director s).
  { unfold in_world in H1, H2.
    destruct (emit _ (wld s)) as [r1 w1]. injection H1 as _ <-.
    simpl in H2. destruct (call _ _ _) as [r2 w2]. by injection H2 as _ <-. }
  destruct (String.eqb _ "Split") eqn:Eb.
  - apply BLOCK_TYPE_Split in Eb.
    apply bind_Ret in H as (items & s3 & H3 & H).
    apply lift_Ret in H3 as [Hit ->]. injection H as <- <- <-.
    split; [done|]. split; [done|]. intros _.
    unfold in_world in H2. destruct (call _ _ _) as [r2 w2] eqn:Ec.
    injection H2 as -> _.
    apply (Split_call_returns_list _ _ _ _ _ Eb) in Ec as [l ->].
    simpl in Hit. injection Hit as <-. eauto.
  - injection H as <- <- <-. split; [done|]. split; [done|].
    intros Hs. apply BLOCK_TYPE_Split in Hs. congruence.
Qed.

(** The subscriptions during a dispatch. *)
Context (L : gmap string (list ref)).

Lemma assembled_from_fanout record :
  assembled heap L record -> from_fanout heap L record.
Proof.
  intros (listener & result & output & Hsub & -> & Hsplit & _).
  exists listener, result. done.
Qed.

Lemma handle_listener_spawned listener data s completed s' :
  subscribed L listener ->
  create_task (_handle_listener heap listener data) s = (Ret completed, s') ->
  director s' = director s /\ spawned heap L (__name__ (heap listener), completed).
Proof.
  intros Hsub. unfold create_task.
  destruct (_handle_listener heap listener data s) as [[[result chain]|e| |] s1]
    eqn:Eh; intros [= <- <-].
  - apply handle_listener_Ret in Eh as (Hd & Hns & Hs).
    split; [done|]. exists listener. simpl. split; [done|]. split; [done|].
    intros Hne Hcls. destruct (Hs Hcls) as (items & -> & ->).
    destruct items as [|x xs]; [done|]. eauto.
  - split; [|done].
    unfold _handle_listener, bind, in_world in Eh. simpl in Eh.
    destruct (call _ _ _) as [[res|e'| |] w1]; simpl in Eh.
    + destruct (String.eqb _ _); simpl in Eh.
      * unfold lift in Eh. destruct (iter_value res); simpl in Eh;
          by injection Eh as _ <-.
      * done.
    + by injection Eh as _ <-.
    + done.
    + done.
Qed.

Section Loops.
Context (Director_call : string -> value -> M (dstate U) value).
Context (Director_call_good : forall event_name data s v s',
  listeners (director s) = L ->
  Director_call event_name data s = (Ret v, s') ->
  listeners (director s') = L /\ good_output heap L v).

Lemma await_chain_Ret event_name listener result chain return_results s rr' s' :
  listeners (director s) = L ->
  subscribed L listener ->
  event_name = __name__ (heap listener) ->
  (chain <> [] -> cls (heap listener) = ClsSplit ->
   exists x xs, result = VList (x :: xs)) ->
  Forall (assembled heap L) return_results ->
  await_chain Director_call event_name result chain return_results s
    = (Ret rr', s') ->
  listeners (director s') = L /\ Forall (assembled heap L) rr'.
Proof.
  intros HL Hsub ->. revert return_results s HL.
  induction chain as [|process chain IH]; intros rr s HL Hne Hrr; simpl.
  - by intros [= <- <-].
  - intros H. apply bind_Ret in H as (output & s1 & Hc & H).
    apply Director_call_good in Hc as [HL1 Hout]; [|done].
    assert (Hsplit : cls (heap listener) = ClsSplit ->
                     exists x xs, result = VList (x :: xs)).
    { by apply Hne. }
    apply (IH _ s1 HL1) in H; [done|by intros _|].
    apply Forall_app. split; [done|].
    constructor; [|done]. by exists listener, result, output.
Qed.

Lemma listener_loop_Ret subscribers data return_results events s looped s' :
  listeners (director s) = L ->
  Forall (subscribed L) subscribers ->
  Forall (assembled heap L) return_results ->
  Forall (spawned heap L) events ->
  listener_loop heap Director_call subscribers data return_results events s
    = (Ret looped, s') ->
  listeners (director s') = L /\
  Forall (assembled heap L) (fst looped) /\ Forall (spawned heap L) (snd looped).
Proof.
  intros HL Hsubs. revert data return_results events s HL.
  induction Hsubs as [|listener subscribers Hsub _ IH];
    intros data rr events s HL Hrr Hev; simpl.
  - by intros [= <- <-].
  - intros H. apply bind_Ret in H as (completed & s1 & Ht & H).
    apply handle_listener_spawned in Ht as [Hd Hsp]; [|done].
    unfold bind at 1 in H. simpl in H.
    assert (HL1 : listeners (director s1) = L) by (by rewrite Hd).
    destruct (depth_first (director s1)).
    + apply bind_Ret in H as ([result chain] & s2 & Hl & H).
      apply lift_Ret in Hl as [-> ->].
      apply bind_Ret in H as (rr1 & s3 & Ha & H).
      destruct Hsp as (listener' & Hsub' & Hname & Hfan). simpl in *.
      apply (await_chain_Ret _ listener') in Ha as [HL3 Hrr1]; try done.
      by apply IH in H.
    + apply IH in H; try done.
      apply Forall_app. split; [done|]. by constructor.
Qed.

Lemma event_loop_Ret events return_results s rr' s' :
  listeners (director s) = L ->
  Forall (spawned heap L) events ->
  Forall (assembled heap L) return_results ->
  event_loop Director_call events return_results s = (Ret rr', s') ->
  listeners (director s') = L /\ Forall (assembled heap L) rr'.
Proof.
  intros HL Hev. revert return_results s HL.
  induction Hev as [|[nm completed] events Hsp _ IH]; intros rr s HL Hrr; simpl.
  - by intros [= <- <-].
  - intros H. apply bind_Ret in H as ([result chain] & s1 & Hl & H).
    apply lift_Ret in Hl as [-> ->].
    apply bind_Ret in H as (rr1 & s2 & Ha & H).
    destruct Hsp as (listener & Hsub & Hname & Hfan). simpl in *.
    apply (await_chain_Ret _ listener) in Ha as [HL2 Hrr1]; try done.
    by apply IH in H.
Qed.

Lemma flatten_loop_assembled return_results final_results flat :
  Forall (assembled heap L) return_results ->
  Forall (from_fanout heap L) final_results ->
  flatten_loop return_results final_results = inr flat ->
  Forall (from_fanout heap L) flat.
Proof.
  intros Hrr. revert final_results.
  induction Hrr as [|record rr Hrec _ IH]; intros acc Hacc; simpl.
  - by intros [= <-].
  - destruct Hrec as (listener & result & output & Hsub & -> & Hsplit & Hout).
    simpl.
    assert (Hpair : Forall (from_fanout heap L)
      (acc ++ [VDict [("event_name", VStr (__name__ (heap listener)));
                      ("result", result)]])).
    { apply Forall_app. split; [done|]. constructor; [|done].
      by exists listener, result. }
    destruct Hout as [->|(records & -> & Hrecords)]; simpl.
    + by apply IH.
    + apply IH. apply Forall_app. by split.
Qed.

Lemma call_body_Ret event_name data s v s' :
  listeners (director s) = L ->
  call_body heap Director_call event_name data s = (Ret v, s') ->
  listeners (director s') = L /\ good_output heap L v.
Proof.
  intros HL. unfold call_body. unfold bind at 1. simpl.
  destruct (listeners (director s) !! event_name) as [subscribers|] eqn:E.
  - intros H.
    assert (Hsubs : Forall (subscribed L) subscribers).
    { apply Forall_forall. intros listener Hin.
      exists event_name, subscribers. by rewrite <- HL. }
    apply bind_Ret in H as ([] & s1 & Hlog & H).
    injection Hlog as <-.
    apply bind_Ret in H as (looped & s2 & Hloop & H).
    apply listener_loop_Ret in Hloop as (HL2 & Hrr & Hev); try done.
    apply bind_Ret in H as (return_results & s3 & Hevl & H).
    apply event_loop_Ret in Hevl as (HL3 & Hrr3); try done.
    apply bind_Ret in H as ([] & s4 & Hlog & H).
    injection Hlog as <-.
    unfold bind at 1 in H. simpl in H.
    destruct (flatten (director s3)).
    + apply bind_Ret in H as (flat & s5 & Hflat & H).
      apply lift_Ret in Hflat as [Hflat ->]. injection H as <- <-.
      split; [done|]. right. exists flat. split; [done|].
      by apply (flatten_loop_assembled return_results []).
    + injection H as <- <-. split; [done|]. right.
      exists return_results. split; [done|].
      eapply Forall_impl; [exact Hrr3|]. apply assembled_from_fanout.
  - intros H. apply bind_Ret in H as ([] & s1 & Hlog & H).
    injection Hlog as <-. injection H as <- <-. split; [done|]. by left.
Qed.

End Loops.

(** Every record that a dispatch returns, nested or flattened, is
    accounted for by the fan-out of a subscriber. *)
Lemma Director_call_good fuel event_name data s v s' :
  listeners (director s) = L ->
  Director_call heap fuel event_name data s = (Ret v, s') ->
  listeners (director s') = L /\ good_output heap L v.
Proof.
  revert event_name data s v s'.
  induction fuel as [|fuel IH]; intros event_name data s v s' HL; simpl;
    [done|].
  unfold with_semaphore. intros H.
  apply bind_Ret in H as ([] & s1 & Hacq & H).
  assert (HL1 : listeners (director s1) = L).
  { unfold acquire in Hacq. destruct (semaphore (director s)); [done|].
    by injection Hacq as <-. }
  destruct (call_body _ _ _ _ s1) as [[v1|e| |] s2] eqn:Eb; try done.
  injection H as <- <-.
  by apply (call_body_Ret _ IH) in Eb.
Qed.

End DispatchFacts.

Section EmptyFanOut.
Context {U : Type} (heap : ref -> block U).

(** A [Split] whose output is the empty list spawns no dispatch. *)
Lemma empty_output_spawns_nothing listener data (s s' : dstate U) result chain :
  cls (heap listener) = ClsSplit ->
  _handle_listener heap listener data s = (Ret (result, chain), s') ->
  result = VList [] ->
  chain = [].
Proof.
  intros Hcls H ->. apply handle_listener_Ret in H as (_ & _ & Hs).
  destruct (Hs Hcls) as (items & [= <-] & ->). done.
Qed.

(** C9. In a director whose subscribers are all registered under their
    own names, a dispatch that returns, in either order and either
    shape, returns no record that carries the name of a subscribed
    [Split] together with an empty output: a [Split] whose output is
    empty spawns no recursive dispatch, and records are assembled one
    per recursive dispatch only. *)
Theorem empty_split_output_leaves_no_record
    fuel event_name data (s s' : dstate U) v listener :
  registered_inv heap (director s) ->
  subscribed (listeners (director s)) listener ->
  cls (heap listener) = ClsSplit ->
  Director_call heap fuel event_name data s = (Ret v, s') ->
  (forall data0 (s0 s1 : dstate U) result chain,
     _handle_listener heap listener data0 s0 = (Ret (result, chain), s1) ->
     result = VList [] -> chain = []) /\
  (v = VNone \/
   exists records,
     v = VList records /\
     forall record,
       record ∈ records ->
       getitem record "event_name" = inr (VStr (__name__ (heap listener))) ->
       getitem record "result" <> inr (VList [])).
Proof.
  intros Hreg Hsub Hcls Hrun. split.
  { intros data0 s0 s1 result chain. by apply empty_output_spawns_nothing. }
  destruct (Director_call_good heap (listeners (director s))
              fuel event_name data s v s' eq_refl Hrun)
    as [_ [->|(records & -> & Hrecords)]]; [by left|].
  right. exists records. split; [done|].
  intros record Hin Hname Hresult.
  rewrite Forall_forall in Hrecords.
  destruct (Hrecords record Hin)
    as (listener' & result & Hsub' & Hname' & Hresult' & Hsplit).
  assert (listener' = listener) as ->.
  { destruct Hsub as (ev & subscribers & Hl & Hin1).
    destruct Hsub' as (ev' & subscribers' & Hl' & Hin1').
    pose proof (Hreg _ _ _ Hl Hin1) as H1.
    pose proof (Hreg _ _ _ Hl' Hin1') as H2.
    assert (__name__ (heap listener') = __name__ (heap listener)) as E by congruence.
    rewrite E in H2. congruence. }
  destruct (Hsplit Hcls) as (x & xs & ->). congruence.
Qed.

End EmptyFanOut.

(** The directors of the examples have well-formed registries. *)
Lemma split_then_action_wf depth_first flatten_results :
  director_wf stage (split_then_action depth_first flatten_results).
Proof.
  apply run_ops_wf.
  apply (Director_init_wf stage 100 1000 depth_first flatten_results).
  reflexivity.
Qed.

(** The run of a director on which [Split("S")] and then [Action("A")]
    subscribe to "start", on the empty list: in each of the four modes
    "S" runs and leaves no record. *)
Example empty_split_runs :
  fst (Director_call stage 2 "start" (VList [])
         (DState (split_then_action false false) w0))
    = Ret (VList [chain_record "A" (VList []) VNone]) /\
  fst (Director_call stage 2 "start" (VList [])
         (DState (split_then_action false true) w0))
    = Ret (VList [pair_value ("A", VList [])]) /\
  fst (Director_call stage 2 "start" (VList [])
         (DState (split_then_action true false) w0))
    = Ret (VList [chain_record "A" (VTuple [VList []; VList []]) VNone]) /\
  fst (Director_call stage 2 "start" (VList [])
         (DState (split_then_action true true) w0))
    = Ret (VList [pair_value ("A", VTuple [VList []; VList []])]) /\
  calls (trace (wld (snd (Director_call stage 2 "start" (VList [])
                            (DState (split_then_action false false) w0)))))
    = [("S", VList []); ("A", VList [])].
Proof.
  split; [vm_compute; reflexivity|].
  split; [vm_compute; reflexivity|].
  split; [vm_compute; reflexivity|].
  split; vm_compute; reflexivity.
Qed.

Lemma empty_split_output_leaves_no_record_witness :
  (registered_inv stage (split_then_action false false) /\
   subscribed (listeners (split_then_action false false)) 2%nat /\
   cls (stage 2%nat) = ClsSplit /\
   fst (Director_call stage 2 "start" (VList [])
          (DState (split_then_action false false) w0))
     = Ret (VList [chain_record "A" (VList []) VNone])) /\
  (forall data0 (s0 s1 : dstate nat) result chain,
     _handle_listener stage 2%nat data0 s0 = (Ret (result, chain), s1) ->
     result = VList [] -> chain = []) /\
  (VList [chain_record "A" (VList []) VNone] = VNone \/
   exists records,
     VList [chain_record "A" (VList []) VNone] = VList records /\
     forall record,
       record ∈ records ->
       getitem record "event_name" = inr (VStr (__name__ (stage 2%nat))) ->
       getitem record "result" <> inr (VList [])).
Proof.
  assert (Hreg : registered_inv stage (split_then_action false false)).
  { apply split_then_action_wf. }
  assert (Hsub : subscribed (listeners (split_then_action false false)) 2%nat).
  { exists "start", [2%nat; 0%nat]. split; [vm_compute; reflexivity|].
    apply elem_of_cons. by left. }
  split.
  - split; [exact Hreg|]. split; [exact Hsub|].
    split; [reflexivity | vm_compute; reflexivity].
  - apply (empty_split_output_leaves_no_record stage 2 "start" (VList [])
             (DState (split_then_action false false) w0)
             (snd (Director_call stage 2 "start" (VList [])
                     (DState (split_then_action false false) w0)))
             (VList [chain_record "A" (VList []) VNone]) 2%nat);
      [exact Hreg | exact Hsub | reflexivity | vm_compute; reflexivity].
Defined.

(** ** The payload of each subscriber *)

(** C2 fails in depth-first order: the loop assigns the completed
    [(result, chain)] of a subscriber to [data], the variable that the
    next subscriber is called with.  With [A] and [B] subscribed to
    "start", [B] receives that tuple and not the dispatched payload; in
    breadth-first order both receive the payload. *)
Theorem depth_first_rebinds_data :
  fst (Director_call stage 2 "start" (VInt 7)
         (DState (two_subscribers true false) w0))
    = Ret (VList
        [chain_record "A" (VInt 7) VNone;
         chain_record "B" (VTuple [VInt 7; VList [VCoro "A" (VInt 7)]]) VNone])
  /\
  calls (trace (wld (snd (Director_call stage 2 "start" (VInt 7)
                            (DState (two_subscribers true false) w0)))))
    = [("A", VInt 7); ("B", VTuple [VInt 7; VList [VCoro "A" (VInt 7)]])]
  /\
  calls (trace (wld (snd (Director_call stage 2 "start" (VInt 7)
                            (DState (two_subscribers false false) w0)))))
    = [("A", VInt 7); ("B", VInt 7)].
Proof.
  split; [vm_compute; reflexivity|].
  split; vm_compute; reflexivity.
Qed.

(** ** Histories of a dispatch *)

Lemma calls_app (t1 t2 : list event) : calls (t1 ++ t2) = calls t1 ++ calls t2.
Proof.
  induction t1 as [|ev t1 IH]; simpl; [done|].
  destruct ev; simpl; by rewrite ?IH.
Qed.

Section Histories.
Context {U : Type} (heap : ref -> block U).
Implicit Types (s : dstate U) (listener : ref) (data : value).

Lemma grows_ret {A} (a : A) : grows (U:=U) (ret a).
Proof. intros s r s' [= _ <-]. exists []. by rewrite app_nil_r. Qed.

Lemma grows_lift {A} (x : exn + A) : grows (U:=U) (lift x).
Proof. intros s r s' [= _ <-]. exists []. by rewrite app_nil_r. Qed.

Lemma grows_bind {A B} (c : M (dstate U) A) (k : A -> M (dstate U) B) :
  grows c -> (forall a, grows (k a)) -> grows (bind c k).
Proof.
  intros Hc Hk s r s'. unfold bind.
  destruct (c s) as [[a|e| |] s1] eqn:Ec; specialize (Hc _ _ _ Ec).
  - intros Hka. destruct Hc as [t1 Ht1].
    destruct (Hk a _ _ _ Hka) as [t2 Ht2].
    exists (t1 ++ t2). by rewrite Ht2, Ht1, app_assoc.
  - by intros [= _ <-].
  - by intros [= _ <-].
  - by intros [= _ <-].
Qed.

Lemma grows_log message : grows (U:=U) (log message).
Proof. intros s r s' [= _ <-]. exists []. simpl. by rewrite app_nil_r. Qed.

Lemma grows_get_director : grows (U:=U) (fun s => (Ret (director s), s)).
Proof. intros s r s' [= _ <-]. exists []. by rewrite app_nil_r. Qed.

(** [_handle_listener] comes back; it records the call of the listener
    on [data], and no other call, and leaves the director alone. *)
Lemma handle_listener_trace listener data s r s' :
  _handle_listener heap listener data s = (r, s') ->
  director s' = director s /\
  settled r /\
  exists t,
    trace (wld s') = trace (wld s) ++ EvCall (__name__ (heap listener)) data :: t /\
    calls t = [].
Proof.
  unfold _handle_listener, bind, in_world. simpl.
  destruct (call _ _ _) as [[res|e| |] w1] eqn:Ec;
    pose proof (call_settled _ _ _ _ _ Ec) as Hset; try done;
    apply call_trace in Ec as (t & Ht & Hc); simpl in Ht.
  - destruct (String.eqb _ _); simpl.
    + unfold lift. destruct (iter_value res); simpl; intros [= <- <-]; simpl;
        (split; [done|]); (split; [done|]); exists t;
        by rewrite Ht, <- app_assoc.
    + intros [= <- <-]. simpl. split; [done|]. split; [done|].
      exists t. by rewrite Ht, <- app_assoc.
  - intros [= <- <-]. simpl. split; [done|]. split; [done|].
    exists t. by rewrite Ht, <- app_assoc.
Qed.

Lemma grows_handle_listener listener data :
  grows (_handle_listener heap listener data).
Proof.
  intros s r s' H. apply handle_listener_trace in H as (_ & _ & t & Ht & _).
  eauto.
Qed.

Lemma grows_create_task {A} (c : M (dstate U) A) :
  grows c -> grows (create_task c).
Proof.
  intros Hc s r s'. unfold create_task.
  destruct (c s) as [[a|e| |] s1] eqn:Ec; specialize (Hc _ _ _ Ec);
    by intros [= _ <-].
Qed.

Lemma grows_with_semaphore {A} (body : M (dstate U) A) :
  grows body -> grows (with_semaphore body).
Proof.
  intros Hb s r s'. unfold with_semaphore, bind, acquire.
  destruct (semaphore (director s)).
  - intros [= _ <-]. exists []. by rewrite app_nil_r.
  - destruct (body _) as [[a|e| |] s1] eqn:Eb; specialize (Hb _ _ _ Eb);
      by intros [= _ <-].
Qed.

Section LoopHistories.
Context (Director_call : string -> value -> M (dstate U) value).
Context (Director_call_grows : forall event_name data,
  grows (Director_call event_name data)).

Lemma grows_await_chain event_name result chain return_results :
  grows (await_chain Director_call event_name result chain return_results).
Proof.
  revert return_results. induction chain as [|process chain IH];
    intros return_results; simpl.
  - apply grows_ret.
  - apply grows_bind; [apply Director_call_grows|]. intros output. apply IH.
Qed.

Lemma grows_event_loop events return_results :
  grows (event_loop Director_call events return_results).
Proof.
  revert return_results. induction events as [|event events IH];
    intros return_results; simpl.
  - apply grows_ret.
  - apply grows_bind; [apply grows_lift|]. intros completed.
    apply grows_bind; [apply grows_await_chain|]. intros rr. apply IH.
Qed.

Lemma grows_listener_loop subscribers data return_results events :
  grows (listener_loop heap Director_call subscribers data return_results
           events).
Proof.
  revert data return_results events.
  induction subscribers as [|listener subscribers IH];
    intros data return_results events; simpl.
  - apply grows_ret.
  - apply grows_bind;
      [apply grows_create_task, grows_handle_listener|].
    intros completed. apply grows_bind; [apply grows_get_director|].
    intros d. destruct (depth_first d); [|apply IH].
    apply grows_bind; [apply grows_lift|]. intros c.
    apply grows_bind; [apply grows_await_chain|]. intros rr. apply IH.
Qed.

Lemma grows_call_body event_name data :
  grows (call_body heap Director_call event_name data).
Proof.
  unfold call_body. apply grows_bind; [apply grows_get_director|].
  intros d. destruct (listeners d !! event_name) as [subscribers|].
  - apply grows_bind; [apply grows_log|]. intros _.
    apply grows_bind; [apply grows_listener_loop|]. intros looped.
    apply grows_bind; [apply grows_event_loop|]. intros rr.
    apply grows_bind; [apply grows_log|]. intros _.
    apply grows_bind; [apply grows_get_director|]. intros d'.
    destruct (flatten d'); [|apply grows_ret].
    apply grows_bind; [apply grows_lift|]. intros flat. apply grows_ret.
  - apply grows_bind; [apply grows_log|]. intros _. apply grows_ret.
Qed.

(** In breadth-first order the first loop calls each subscriber, in
    subscription order, on the payload of the dispatch, and it always
    completes. *)
Lemma listener_loop_breadth_first subscribers data return_results events
    s r s' :
  depth_first (director s) = false ->
  listener_loop heap Director_call subscribers data return_results events s
    = (r, s') ->
  director s' = director s /\
  (exists looped, r = Ret looped) /\
  exists t,
    trace (wld s') = trace (wld s) ++ t /\
    calls t = map (fun listener => (__name__ (heap listener), data)) subscribers.
Proof.
  revert return_results events s.
  induction subscribers as [|listener subscribers IH];
    intros return_results events s Hbf; simpl.
  - intros [= <- <-]. split; [done|]. split; [eauto|].
    exists []. by rewrite app_nil_r.
  - unfold bind at 1. unfold create_task.
    destruct (_handle_listener heap listener data s) as [r1 s1] eqn:Eh.
    apply handle_listener_trace in Eh as (Hd & Hset & t1 & Ht1 & Hc1).
    assert (Hbf1 : depth_first (director s1) = false) by (by rewrite Hd).
    destruct r1 as [completed|e| |]; try done.
    + unfold bind at 1. simpl. rewrite Hbf1. intros H.
      apply IH in H as (Hd' & Hret & t & Ht & Hc); [|done].
      split; [congruence|]. split; [done|].
      exists ((EvCall (__name__ (heap listener)) data :: t1) ++ t).
      split; [by rewrite Ht, Ht1, <- app_assoc|].
      rewrite calls_app. simpl. by rewrite Hc1, Hc.
    + unfold bind at 1. simpl. rewrite Hbf1. intros H.
      apply IH in H as (Hd' & Hret & t & Ht & Hc); [|done].
      split; [congruence|]. split; [done|].
      exists ((EvCall (__name__ (heap listener)) data :: t1) ++ t).
      split; [by rewrite Ht, Ht1, <- app_assoc|].
      rewrite calls_app. simpl. by rewrite Hc1, Hc.
Qed.

End LoopHistories.

Lemma grows_Director_call fuel event_name data :
  grows (Director_call heap fuel event_name data).
Proof.
  revert event_name data. induction fuel as [|fuel IH];
    intros event_name data; simpl.
  - intros s r s' [= _ <-]. exists []. by rewrite app_nil_r.
  - apply grows_with_semaphore. by apply grows_call_body.
Qed.

(** In breadth-first order a dispatch that gets a permit calls every
    subscriber of the event, in subscription order, on the payload it
    received, before anything else; this holds whatever the subscribers
    and the recursive dispatches do afterwards (return, raise, block). *)
Theorem breadth_first_same_payload fuel event_name data s subscribers r s' :
  depth_first (director s) = false ->
  semaphore (director s) <> 0%nat ->
  listeners (director s) !! event_name = Some subscribers ->
  Director_call heap (S fuel) event_name data s = (r, s') ->
  exists rest,
    calls (trace (wld s')) =
      calls (trace (wld s))
        ++ map (fun listener => (__name__ (heap listener), data)) subscribers
        ++ rest.
Proof.
  intros Hbf Hsem Hsubs. simpl. unfold with_semaphore, bind at 1, acquire.
  destruct (semaphore (director s)) as [|n] eqn:En; [done|].
  set (s1 := DState _ (wld s)).
  assert (Hbody : forall r1 s2,
    call_body heap (Director_call heap fuel) event_name data s1 = (r1, s2) ->
    exists rest,
      calls (trace (wld s2)) =
        calls (trace (wld s))
          ++ map (fun listener => (__name__ (heap listener), data)) subscribers
          ++ rest).
  { intros r1 s2. unfold call_body. unfold bind at 1. simpl. rewrite Hsubs.
    unfold bind at 1. simpl.
    set (s1' := DState _ (wld s)).
    unfold bind at 1.
    destruct (listener_loop _ _ _ _ _ _ s1') as [r2 s3] eqn:El.
    apply listener_loop_breadth_first in El as (Hd & [looped ->] & t & Ht & Hc);
      [|done].
    intros Hrest.
    assert (Hg : exists t', trace (wld s2) = trace (wld s3) ++ t').
    { revert Hrest. generalize s3 r1 s2.
      change (grows (fun s3 =>
        (return_results <-
           event_loop (Director_call heap fuel) (snd looped) (fst looped) ;;
         log ("Events for '" +:+ event_name +:+ "' completed") ;;;
         d <- (fun s => (Ret (director s), s)) ;;
         if flatten d
         then flat <- lift (flatten_results return_results) ;; ret (VList flat)
         else ret (VList return_results)) s3)).
      apply grows_bind;
        [apply grows_event_loop; intros; apply grows_Director_call|].
      intros rr. apply grows_bind; [apply grows_log|]. intros _.
      apply grows_bind; [apply grows_get_director|]. intros d'.
      destruct (flatten d'); [|apply grows_ret].
      apply grows_bind; [apply grows_lift|]. intros flat. apply grows_ret. }
    destruct Hg as [t' Ht']. exists (calls t').
    rewrite Ht', Ht. simpl. by rewrite !calls_app, Hc, <- !app_assoc. }
  destruct (call_body _ _ _ _ s1) as [r1 s2].
  specialize (Hbody r1 s2 eq_refl).
  destruct r1; intros [= <- <-]; exact Hbody.
Qed.

End Histories.

Lemma breadth_first_same_payload_witness :
  (depth_first (two_subscribers false false) = false /\
   semaphore (two_subscribers false false) <> 0%nat /\
   listeners (two_subscribers false false) !! "start"
     = Some [0%nat; 1%nat]) /\
  exists rest,
    calls (trace (wld (snd (Director_call stage 2 "start" (VInt 7)
                              (DState (two_subscribers false false) w0))))) =
      calls (trace (wld (DState (two_subscribers false false) w0)))
        ++ map (fun listener => (__name__ (stage listener), VInt 7))
             [0%nat; 1%nat]
        ++ rest.
Proof.
  split.
  - split; [reflexivity|]. split; [discriminate|vm_compute; reflexivity].
  - apply (breadth_first_same_payload stage 1 "start" (VInt 7)
             (DState (two_subscribers false false) w0) [0%nat; 1%nat]
             (fst (Director_call stage 2 "start" (VInt 7)
                     (DState (two_subscribers false false) w0))));
      [reflexivity | discriminate | vm_compute; reflexivity
      | vm_compute; reflexivity].
Defined.

(** ** Dispatch without subscribers, and without permits *)

Section Permits.
Context {U : Type} (heap : ref -> block U).
Implicit Types (s : dstate U) (data : value).

(** A dispatch of an event that nothing subscribes to returns [None],
    logs the one message, and gives its permit back. *)
Theorem dispatch_without_subscribers fuel event_name data s :
  semaphore (director s) <> 0%nat ->
  listeners (director s) !! event_name = None ->
  Director_call heap (S fuel) event_name data s
    = (Ret VNone,
       DState (log_append (director s) (no_listeners_message event_name))
         (wld s)) /\
  ((length (logs (director s)) < max_logs (director s))%nat ->
   logs (log_append (director s) (no_listeners_message event_name))
     = logs (director s) ++ [no_listeners_message event_name]).
Proof.
  intros Hsem Hnone. split.
  - simpl. unfold with_semaphore, bind, acquire.
    destruct s as [[L lg ml sem df fl acts] w]. simpl in *.
    destruct sem as [|n]; [done|]. simpl.
    unfold call_body, bind. simpl. by rewrite Hnone.
  - intros Hlen. unfold log_append. simpl.
    rewrite length_app. simpl.
    replace (length (logs (director s)) + 1 - max_logs (director s))%nat
      with 0%nat by lia.
    done.
Qed.

(** A dispatch that finds no permit left waits for one: nothing runs. *)
Theorem dispatch_without_permit_blocks fuel event_name data s :
  semaphore (director s) = 0%nat ->
  Director_call heap (S fuel) event_name data s = (Blocked, s).
Proof.
  intros Hsem. simpl. unfold with_semaphore, bind, acquire. by rewrite Hsem.
Qed.

End Permits.

Lemma dispatch_without_subscribers_witness :
  (semaphore (two_subscribers false false) <> 0%nat /\
   listeners (two_subscribers false false) !! "other" = None) /\
  Director_call stage 1 "other" VNone (DState (two_subscribers false false) w0)
    = (Ret VNone,
       DState (log_append (two_subscribers false false)
                 (no_listeners_message "other")) w0) /\
  ((length (logs (two_subscribers false false))
      < max_logs (two_subscribers false false))%nat ->
   logs (log_append (two_subscribers false false)
           (no_listeners_message "other"))
     = logs (two_subscribers false false) ++ [no_listeners_message "other"]).
Proof.
  split.
  - split; [discriminate|vm_compute; reflexivity].
  - apply (dispatch_without_subscribers stage 0 "other" VNone
             (DState (two_subscribers false false) w0));
      [discriminate | vm_compute; reflexivity].
Defined.

Lemma dispatch_without_permit_blocks_witness :
  semaphore (one_subscriber 0 false) = 0%nat /\
  Director_call stage 1 "start" VNone (DState (one_subscriber 0 false) w0)
    = (Blocked, DState (one_subscriber 0 false) w0).
Proof.
  split; [reflexivity|].
  apply (dispatch_without_permit_blocks stage 0 "start" VNone
           (DState (one_subscriber 0 false) w0)).
  reflexivity.
Defined.

(** With one permit and one subscriber the dispatch never returns, in
    either order: [A] runs, and the recursive dispatch of event "A" waits
    for the permit that its caller holds.  With two permits it returns. *)
Example single_permit_deadlock :
  fst (Director_call stage 3 "start" (VInt 7)
         (DState (one_subscriber 1 false) w0)) = Blocked /\
  fst (Director_call stage 3 "start" (VInt 7)
         (DState (one_subscriber 1 true) w0)) = Blocked /\
  calls (trace (wld (snd (Director_call stage 3 "start" (VInt 7)
                            (DState (one_subscriber 1 false) w0)))))
    = [("A", VInt 7)] /\
  fst (Director_call stage 3 "start" (VInt 7)
         (DState (one_subscriber 2 false) w0))
    = Ret (VList [chain_record "A" (VInt 7) VNone]).
Proof.
  split; [vm_compute; reflexivity|].
  split; [vm_compute; reflexivity|].
  split; vm_compute; reflexivity.
Qed.

(** ** Fan-out *)

Section FanOut.
Context {U : Type} (heap : ref -> block U).

(** A [Split] spawns one dispatch per element of its output, each of the
    event named after the [Split], on that element; any other listener
    spawns one dispatch on its whole output. *)
Theorem fan_out_per_element listener data (s s' : dstate U) result chain :
  _handle_listener heap listener data s = (Ret (result, chain), s') ->
  (cls (heap listener) = ClsSplit ->
   exists items,
     result = VList items /\
     chain = map (fun r => (__name__ (heap listener), r)) items) /\
  (cls (heap listener) <> ClsSplit ->
   chain = [(__name__ (heap listener), result)]).
Proof.
  intros H. apply handle_listener_Ret in H as (_ & Hns & Hs). done.
Qed.

End FanOut.

Lemma fan_out_per_element_witness :
  _handle_listener stage 2%nat (VList [VStr "a"; VStr "b"])
      (DState split_subscriber w0)
    = (Ret (VList [VStr "a"; VStr "b"], [("S", VStr "a"); ("S", VStr "b")]),
       DState split_subscriber
         (World 0%nat [EvCall "S" (VList [VStr "a"; VStr "b"]);
                       EvForward "S" (VList [VStr "a"; VStr "b"])])) /\
  (cls (stage 2%nat) = ClsSplit ->
   exists items,
     VList [VStr "a"; VStr "b"] = VList items /\
     [("S", VStr "a"); ("S", VStr "b")]
       = map (fun r => (__name__ (stage 2%nat), r)) items) /\
  (cls (stage 2%nat) <> ClsSplit ->
   [("S", VStr "a"); ("S", VStr "b")]
     = [(__name__ (stage 2%nat), VList [VStr "a"; VStr "b"])]).
Proof.
  split; [vm_compute; reflexivity|].
  apply (fan_out_per_element stage 2%nat (VList [VStr "a"; VStr "b"])
           (DState split_subscriber w0)
           (DState split_subscriber
              (World 0%nat [EvCall "S" (VList [VStr "a"; VStr "b"]);
                            EvForward "S" (VList [VStr "a"; VStr "b"])]))).
  vm_compute; reflexivity.
Defined.

(** The scenarios of the specification: [A] on "start" with nothing
    subscribed to "A", and [Split("S")] on "start" with the output
    ["a", "b"] and nothing subscribed to "S". *)
Example dispatch_scenarios :
  fst (Director_call stage 2 "start" (VStr "x")
         (DState (one_subscriber 100 false) w0))
    = Ret (VList [chain_record "A" (VStr "x") VNone]) /\
  fst (Director_call stage 2 "start" (VList [VStr "a"; VStr "b"])
         (DState split_subscriber w0))
    = Ret (VList [chain_record "S" (VList [VStr "a"; VStr "b"]) VNone;
                  chain_record "S" (VList [VStr "a"; VStr "b"]) VNone]) /\
  logs (director (snd (Director_call stage 2 "start"
                         (VList [VStr "a"; VStr "b"])
                         (DState split_subscriber w0))))
    = ["Processing events for 'start'"; "No listeners for 'S'";
       "No listeners for 'S'"; "Events for 'start' completed"].
Proof.
  split; [vm_compute; reflexivity|].
  split; vm_compute; reflexivity.
Qed.

(** ** Flattening at every level *)

(** The flattener on the records of a flattening dispatch: the
    pre-order walk of the trees of the nested dispatch. *)
Lemma flatten_loop_twins (rr_n rr_f final_results : list value) :
  Forall2 twin_records rr_n rr_f ->
  exists ts,
    rr_n = map encode ts /\
    flatten_loop rr_f final_results
      = inr (final_results ++ map pair_value (concat (map preorder ts))).
Proof.
  intros H. revert final_results.
  induction H as [|rec_n rec_f rr_n rr_f Hrec _ IH]; intros acc.
  - exists []. simpl. by rewrite app_nil_r.
  - destruct Hrec as (event_name & result & out_n & out_f & -> & -> & Himg).
    destruct Himg as [[-> ->]|(ts' & -> & ->)]; simpl.
    + destruct (IH (acc ++ [VDict [("event_name", VStr event_name);
                                   ("result", result)]]))
        as (ts & -> & ->).
      exists (Tree event_name result Null :: ts). split; [done|].
      simpl. by rewrite <- app_assoc.
    + destruct (IH ((acc ++ [VDict [("event_name", VStr event_name);
                                    ("result", result)]])
                    ++ map pair_value (concat (map preorder ts'))))
        as (ts & -> & ->).
      exists (Tree event_name result (Records ts') :: ts). split; [done|].
      simpl. rewrite map_app, <- !app_assoc. done.
Qed.

Section FlattenedDispatch.
Context {U : Type} (heap : ref -> block U).

Lemma sim_ret {A} (R : A -> A -> Prop) (a_n a_f : A) :
  R a_n a_f -> sim (U:=U) R (ret a_n) (ret a_f).
Proof. intros HR d w. exists d, w, (Ret a_n), (Ret a_f). done. Qed.

Lemma sim_bind {A B} (RA : A -> A -> Prop) (RB : B -> B -> Prop)
    (c_n c_f : M (dstate U) A) (k_n k_f : A -> M (dstate U) B) :
  sim RA c_n c_f ->
  (forall a_n a_f, RA a_n a_f -> sim RB (k_n a_n) (k_f a_f)) ->
  sim RB (bind c_n k_n) (bind c_f k_f).
Proof.
  intros Hc Hk d w. destruct (Hc d w) as (d1 & w1 & r_n & r_f & En & Ef & Hr).
  unfold bind. rewrite En, Ef.
  destruct r_n as [a_n|e_n| |], r_f as [a_f|e_f| |]; try done.
  - apply (Hk a_n a_f Hr).
  - exists d1, w1, (Raise e_n), (Raise e_f). done.
  - exists d1, w1, Blocked, Blocked. done.
  - exists d1, w1, OutOfFuel, OutOfFuel. done.
Qed.

Lemma sim_lift {A} (x : exn + A) : sim (U:=U) eq (lift x) (lift x).
Proof.
  intros d w. unfold lift.
  exists d, w, (match x with inr a => Ret a | inl e => Raise e end),
    (match x with inr a => Ret a | inl e => Raise e end).
  split; [done|]. split; [done|]. by destruct x.
Qed.

Lemma sim_log message : sim (U:=U) eq (log message) (log message).
Proof.
  intros d w. exists (log_append d message), w, (Ret tt), (Ret tt). done.
Qed.

Lemma sim_get_director :
  sim (U:=U)
    (fun d_n d_f => exists d,
       d_n = with_flatten false d /\ d_f = with_flatten true d)
    (fun s => (Ret (director s), s)) (fun s => (Ret (director s), s)).
Proof.
  intros d w.
  exists d, w, (Ret (with_flatten false d)), (Ret (with_flatten true d)).
  split; [done|]. split; [done|]. by exists d.
Qed.

(** [_handle_listener] does not look at the director. *)
Lemma sim_handle_listener listener data :
  sim eq (create_task (_handle_listener heap listener data))
    (create_task (_handle_listener heap listener data)).
Proof.
  intros d w.
  assert (H : forall D : Director,
    create_task (_handle_listener heap listener data) (DState D w)
    = (fst (create_task (_handle_listener heap listener data)
              (DState (with_flatten false d) w)),
       DState D (wld (snd (create_task (_handle_listener heap listener data)
                             (DState (with_flatten false d) w)))))).
  { intros D. unfold create_task, _handle_listener, bind, in_world. simpl.
    destruct (call _ _ _) as [[res|e| |] w1]; simpl; try done.
    destruct (String.eqb _ _); simpl; [|done].
    unfold lift. by destruct (iter_value res). }
  eexists d, _, _, _. split; [apply H|]. split; [apply H|].
  simpl. by destruct (fst _).
Qed.

Lemma sim_with_semaphore {A} (R : A -> A -> Prop)
    (body_n body_f : M (dstate U) A) :
  sim R body_n body_f ->
  sim R (with_semaphore body_n) (with_semaphore body_f).
Proof.
  intros Hb d w. unfold with_semaphore, bind, acquire. simpl.
  destruct (semaphore d) as [|n] eqn:En.
  - exists d, w, Blocked, Blocked. done.
  - destruct (Hb (MkDirector (listeners d) (logs d) (max_logs d) n
                    (depth_first d) false (actions d)) w)
      as (d2 & w2 & r_n & r_f & Hn & Hf & Hr).
    unfold with_flatten in Hn, Hf. simpl in Hn, Hf. rewrite Hn, Hf.
    destruct r_n as [a_n|e_n| |], r_f as [a_f|e_f| |]; try done.
    + exists (MkDirector (listeners d2) (logs d2) (max_logs d2)
                (S (semaphore d2)) (depth_first d2) false (actions d2)), w2,
        (Ret a_n), (Ret a_f). done.
    + exists (MkDirector (listeners d2) (logs d2) (max_logs d2)
                (S (semaphore d2)) (depth_first d2) false (actions d2)), w2,
        (Raise e_n), (Raise e_f). done.
    + exists d2, w2, Blocked, Blocked. done.
    + exists d2, w2, OutOfFuel, OutOfFuel. done.
Qed.

Section TwinLoops.
Context (Director_call : string -> value -> M (dstate U) value).
Context (Director_call_sim : forall event_name data,
  sim flat_image (Director_call event_name data)
    (Director_call event_name data)).

Lemma sim_await_chain event_name result chain rr_n rr_f :
  Forall2 twin_records rr_n rr_f ->
  sim (Forall2 twin_records)
    (await_chain Director_call event_name result chain rr_n)
    (await_chain Director_call event_name result chain rr_f).
Proof.
  revert rr_n rr_f. induction chain as [|process chain IH];
    intros rr_n rr_f Hrr; simpl.
  - by apply sim_ret.
  - eapply sim_bind; [apply Director_call_sim|].
    intros output_n output_f Hout. apply IH.
    apply Forall2_app; [done|]. constructor; [|done].
    by exists event_name, result, output_n, output_f.
Qed.

Lemma sim_listener_loop subscribers data rr_n rr_f events :
  Forall2 twin_records rr_n rr_f ->
  sim (fun x y => Forall2 twin_records (fst x) (fst y) /\ snd x = snd y)
    (listener_loop heap Director_call subscribers data rr_n events)
    (listener_loop heap Director_call subscribers data rr_f events).
Proof.
  revert data rr_n rr_f events.
  induction subscribers as [|listener subscribers IH];
    intros data rr_n rr_f events Hrr; simpl.
  - by apply sim_ret.
  - eapply sim_bind; [apply sim_handle_listener|].
    intros completed ? <-.
    eapply sim_bind; [apply sim_get_director|].
    intros d_n d_f (d & -> & ->). simpl.
    destruct (depth_first d); [|by apply IH].
    eapply sim_bind; [apply sim_lift|]. intros c ? <-.
    eapply sim_bind; [by apply sim_await_chain|].
    intros rr_n' rr_f' Hrr'. by apply IH.
Qed.

Lemma sim_event_loop events rr_n rr_f :
  Forall2 twin_records rr_n rr_f ->
  sim (Forall2 twin_records)
    (event_loop Director_call events rr_n)
    (event_loop Director_call events rr_f).
Proof.
  revert rr_n rr_f. induction events as [|event events IH];
    intros rr_n rr_f Hrr; simpl.
  - by apply sim_ret.
  - eapply sim_bind; [apply sim_lift|]. intros c ? <-.
    eapply sim_bind; [by apply sim_await_chain|].
    intros rr_n' rr_f' Hrr'. by apply IH.
Qed.

Lemma sim_call_body event_name data :
  sim flat_image (call_body heap Director_call event_name data)
    (call_body heap Director_call event_name data).
Proof.
  unfold call_body.
  eapply sim_bind; [apply sim_get_director|].
  intros d_n d_f (d & -> & ->). simpl.
  destruct (listeners d !! event_name) as [subscribers|].
  - eapply sim_bind; [apply sim_log|]. intros _ _ _.
    eapply sim_bind; [by apply sim_listener_loop|].
    intros [rr_n ev_n] [rr_f ev_f] [Hrr Hev]. simpl in *. subst ev_f.
    eapply sim_bind; [by apply sim_event_loop|].
    intros rr_n' rr_f' Hrr'.
    eapply sim_bind; [apply sim_log|]. intros _ _ _.
    eapply sim_bind; [apply sim_get_director|].
    intros d_n d_f (d1 & -> & ->). simpl.
    destruct (flatten_loop_twins rr_n' rr_f' [] Hrr') as (ts & -> & Hflat).
    intros d2 w2. unfold bind, lift, flatten_results. rewrite Hflat.
    exists d2, w2, (Ret (VList (map encode ts))),
      (Ret (VList (map pair_value (concat (map preorder ts))))).
    split; [done|]. split; [done|]. right. by exists ts.
  - eapply sim_bind; [apply sim_log|]. intros _ _ _.
    apply sim_ret. by left.
Qed.

End TwinLoops.

Lemma sim_Director_call fuel event_name data :
  sim flat_image (Director_call heap fuel event_name data)
    (Director_call heap fuel event_name data).
Proof.
  revert event_name data. induction fuel as [|fuel IH];
    intros event_name data; simpl.
  - intros d w. exists d, w, OutOfFuel, OutOfFuel. done.
  - apply sim_with_semaphore. by apply sim_call_body.
Qed.

(** A dispatch with flattening enabled returns the pre-order walk of
    the record trees that the same dispatch returns without flattening
    (and [None] where that one returns [None]); the two runs leave the
    same world, log and permits. *)
Theorem flattened_dispatch_is_preorder fuel event_name data d w v_n s_n :
  Director_call heap fuel event_name data (DState (with_flatten false d) w)
    = (Ret v_n, s_n) ->
  exists v_f d',
    s_n = DState (with_flatten false d') (wld s_n) /\
    Director_call heap fuel event_name data (DState (with_flatten true d) w)
      = (Ret v_f, DState (with_flatten true d') (wld s_n)) /\
    flat_image v_n v_f.
Proof.
  intros Hn.
  destruct (sim_Director_call fuel event_name data d w)
    as (d' & w' & r_n & r_f & En & Ef & Hr).
  rewrite Hn in En. injection En as <- ->.
  destruct r_f as [v_f|e| |]; try done.
  exists v_f, d'. done.
Qed.

End FlattenedDispatch.

Lemma flattened_dispatch_is_preorder_witness :
  Director_call stage 3 "start" (VList [VInt 1; VInt 2])
      (DState (with_flatten false (split_then_action false false)) w0)
    = (Ret (VList (map encode
         [Tree "S" (VList [VInt 1; VInt 2]) Null;
          Tree "S" (VList [VInt 1; VInt 2]) Null;
          Tree "A" (VList [VInt 1; VInt 2]) Null])),
       snd (Director_call stage 3 "start" (VList [VInt 1; VInt 2])
              (DState (with_flatten false (split_then_action false false))
                 w0))) /\
  exists v_f d',
    snd (Director_call stage 3 "start" (VList [VInt 1; VInt 2])
           (DState (with_flatten false (split_then_action false false)) w0))
      = DState (with_flatten false d')
          (wld (snd (Director_call stage 3 "start" (VList [VInt 1; VInt 2])
                       (DState (with_flatten false
                                  (split_then_action false false)) w0)))) /\
    Director_call stage 3 "start" (VList [VInt 1; VInt 2])
        (DState (with_flatten true (split_then_action false false)) w0)
      = (Ret v_f,
         DState (with_flatten true d')
           (wld (snd (Director_call stage 3 "start" (VList [VInt 1; VInt 2])
                        (DState (with_flatten false
                                   (split_then_action false false)) w0))))) /\
    flat_image
      (VList (map encode
         [Tree "S" (VList [VInt 1; VInt 2]) Null;
          Tree "S" (VList [VInt 1; VInt 2]) Null;
          Tree "A" (VList [VInt 1; VInt 2]) Null])) v_f.
Proof.
  assert (H : Director_call stage 3 "start" (VList [VInt 1; VInt 2])
      (DState (with_flatten false (split_then_action false false)) w0)
    = (Ret (VList (map encode
         [Tree "S" (VList [VInt 1; VInt 2]) Null;
          Tree "S" (VList [VInt 1; VInt 2]) Null;
          Tree "A" (VList [VInt 1; VInt 2]) Null])),
       snd (Director_call stage 3 "start" (VList [VInt 1; VInt 2])
              (DState (with_flatten false (split_then_action false false))
                 w0)))).
  { vm_compute. reflexivity. }
  split; [exact H|].
  exact (flattened_dispatch_is_preorder stage 3 "start"
           (VList [VInt 1; VInt 2]) (split_then_action false false) w0 _ _ H).
Defined.

(** The pipeline start -> A -> B -> C: the nested result is a tree of
    depth three, the flattened one its pre-order walk. *)
Example pipeline_runs :
  fst (Director_call stage 4 "start" (VInt 7) (DState (pipeline false false) w0))
    = Ret (VList (map encode
        [Tree "A" (VInt 7)
           (Records [Tree "B" (VInt 7)
                       (Records [Tree "C" (VInt 7) Null])])])) /\
  fst (Director_call stage 4 "start" (VInt 7) (DState (pipeline false true) w0))
    = Ret (VList (map pair_value
        [("A", VInt 7); ("B", VInt 7); ("C", VInt 7)])) /\
  fst (Director_call stage 3 "start" (VInt 7) (DState (pipeline false false) w0))
    = OutOfFuel.
Proof.
  split; [vm_compute; reflexivity|].
  split; vm_compute; reflexivity.
Qed.

(** ** Wiring by name *)

(** [add_subscription] and [remove_subscription] refuse a name that was
    never registered; [add_subscription] of a registered name appends
    its listener to the subscribers of the event; [remove_subscription]
    leaves a director without that event as it is, takes the first
    occurrence of the listener out of the subscribers of the event, and
    raises [ValueError] when the listener is not among them. *)
Theorem wiring_outcomes (event_name action_name : string) (d : Director) :
  (actions d !! action_name = None ->
   add_subscription event_name action_name d
     = inl (UnknownActionError action_name) /\
   remove_subscription event_name action_name d
     = inl (UnknownActionError action_name)) /\
  (forall listener,
     actions d !! action_name = Some listener ->
     (exists d',
        add_subscription event_name action_name d = inr d' /\
        listeners d' =
          <[event_name :=
              default [] (listeners d !! event_name) ++ [listener]]>
            (listeners d) /\
        actions d' = actions d) /\
     (listeners d !! event_name = None ->
      remove_subscription event_name action_name d = inr d) /\
     (forall subscribers,
        listeners d !! event_name = Some subscribers ->
        listener ∉ subscribers ->
        remove_subscription event_name action_name d
          = inl (ValueError "list.remove(x): x not in list")) /\
     (forall before after,
        listeners d !! event_name = Some (before ++ listener :: after) ->
        listener ∉ before ->
        exists d',
          remove_subscription event_name action_name d = inr d' /\
          listeners d' = <[event_name := before ++ after]> (listeners d) /\
          actions d' = actions d)).
Proof.
  split.
  - intros Hnone. unfold add_subscription, remove_subscription.
    by rewrite Hnone.
  - intros listener Hreg. unfold add_subscription, remove_subscription.
    rewrite Hreg. split; [|split; [|split]].
    + eexists. split; [done|]. simpl. by rewrite setdefault_append.
    + by intros ->.
    + intros subscribers -> Hnot.
      assert (H : list_remove listener subscribers
                  = inl (ValueError "list.remove(x): x not in list")).
      { induction subscribers as [|y l IH]; simpl; [done|].
        apply not_elem_of_cons in Hnot as [Hne Hnot].
        rewrite bool_decide_eq_false_2 by congruence. by rewrite IH. }
      by rewrite H.
    + intros before after -> Hnot.
      assert (H : list_remove listener (before ++ listener :: after)
                  = inr (before ++ after)).
      { induction before as [|y l IH]; simpl.
        - by rewrite bool_decide_eq_true_2.
        - apply not_elem_of_cons in Hnot as [Hne Hnot].
          rewrite bool_decide_eq_false_2 by congruence. by rewrite IH. }
      rewrite H. eexists. done.
Qed.

Lemma wiring_outcomes_witness :
  (actions fresh_director !! "A" = None /\
   add_subscription "start" "A" fresh_director
     = inl (UnknownActionError "A") /\
   remove_subscription "start" "A" fresh_director
     = inl (UnknownActionError "A")) /\
  (actions (two_subscribers false false) !! "A" = Some 0%nat /\
   listeners (two_subscribers false false) !! "start"
     = Some ([] ++ 0%nat :: [1%nat]) /\
   exists d',
     remove_subscription "start" "A" (two_subscribers false false) = inr d' /\
     listeners d' =
       <["start" := [] ++ [1%nat]]> (listeners (two_subscribers false false)) /\
     actions d' = actions (two_subscribers false false)).
Proof.
  destruct (wiring_outcomes "start" "A" fresh_director) as [H1 _].
  destruct (wiring_outcomes "start" "A" (two_subscribers false false))
    as [_ H2].
  assert (Hreg : actions (two_subscribers false false) !! "A" = Some 0%nat).
  { vm_compute. reflexivity. }
  assert (Hsub : listeners (two_subscribers false false) !! "start"
                 = Some ([] ++ 0%nat :: [1%nat])).
  { vm_compute. reflexivity. }
  split.
  - split; [reflexivity|]. apply H1. reflexivity.
  - split; [exact Hreg|]. split; [exact Hsub|].
    destruct (H2 0%nat Hreg) as (_ & _ & _ & H4).
    apply (H4 [] [1%nat] Hsub). apply not_elem_of_nil.
Defined.

(** * Further properties *)

(** ** Objects as their constructors build them *)

Section Built.
Context {U : Type}.
Implicit Types (self : block U) (data : value) (w : world U).

Lemma Action_init_inv c fwd name parser rc rd ro self :
  Action_init c fwd name parser rc rd ro = inr self ->
  name <> "Termination" /\ name <> "Save" /\
  self = Block c name
           (match parser with Some p => p | None => fun x => inr x end)
           rc rd ro true fwd.
Proof.
  unfold Action_init. repeat case_decide; try done.
  intros [= <-]. done.
Qed.

(** The outcome of one attempt of an object with the class's own
    [forward]. *)
Lemma attempt_own_forward self data w :
  forward_override self = None ->
  attempt self data w =
    (match parser self (match cls self with
                        | ClsTermination => VNone
                        | _ => data
                        end) with
     | inr v => Ret v
     | inl e => Raise e
     end,
     World (ustate w) (trace w ++ [EvForward (__name__ self) data])).
Proof.
  intros Hown. unfold attempt, forward, bind, emit, lift, ret. rewrite Hown.
  simpl.
  destruct (cls self) as [| |condition|]; simpl;
    unfold Action_forward, Split_forward, Condition_forward,
      Termination_forward, Action_forward, ret; simpl;
    try (destruct (condition data)); simpl;
    by destruct (parser self _).
Qed.

(** A [Condition] as its constructor builds it returns its input, once,
    whatever its predicate answers: both branches of
    [Condition.forward] end in the input. *)
Theorem Condition_passes_input_through name condition self data w :
  Condition_init None name condition = inr self ->
  call self data w =
    (Ret data, World (ustate w) (trace w ++ [EvForward name data])).
Proof.
  intros Hinit. unfold Condition_init in Hinit.
  apply Action_init_inv in Hinit as (_ & _ & ->).
  unfold call, Action_call. simpl.
  by rewrite attempt_own_forward.
Qed.

(** A [Split] returns lists only: whatever its core logic, a call that
    returns, returns a list, and an output that is not a list raises the
    type mismatch.  As its constructor builds it, a [Split] returns a
    list payload unchanged and refuses every other payload. *)
Theorem Split_returns_lists_only self data w :
  cls self = ClsSplit ->
  (forall v w', call self data w = (Ret v, w') -> is_list v = true) /\
  (forall v w',
     forward self data w = (Ret v, w') -> is_list v = false ->
     call self data w = (Raise TypeMismatch, w')) /\
  (forall name, Split_init None name = inr self ->
     call self data w =
       (if is_list data then Ret data else Raise TypeMismatch,
        World (ustate w) (trace w ++ [EvForward name data]))).
Proof.
  intros Hcls. unfold call. rewrite Hcls. unfold Split_call, bind.
  split; [|split].
  - intros v w'.
    destruct (forward self data w) as [[output|e| |] w1]; try done.
    destruct (is_list output) eqn:E; simpl; [|done].
    by intros [= <- _].
  - intros v w' -> Hnot. by rewrite Hnot.
  - intros name Hinit. unfold Split_init in Hinit.
    apply Action_init_inv in Hinit as (_ & _ & ->).
    unfold forward, bind, emit, Split_forward, ret. simpl.
    by destruct (is_list data).
Qed.

End Built.

Lemma Condition_passes_input_through_witness :
  Condition_init None "C" (fun _ => false) = inr never_condition /\
  call never_condition (VInt 7) w0 =
    (Ret (VInt 7), World (ustate w0) (trace w0 ++ [EvForward "C" (VInt 7)])).
Proof.
  split; [reflexivity|].
  apply (Condition_passes_input_through "C" (fun _ => false)).
  reflexivity.
Defined.

Lemma Split_returns_lists_only_witness :
  cls plain_split = ClsSplit /\
  Split_init None "S" = inr plain_split /\
  call plain_split (VTuple [VInt 1]) w0 =
    (if is_list (VTuple [VInt 1]) then Ret (VTuple [VInt 1])
     else Raise TypeMismatch,
     World (ustate w0) (trace w0 ++ [EvForward "S" (VTuple [VInt 1])])).
Proof.
  split; [reflexivity|]. split; [reflexivity|].
  apply (Split_returns_lists_only plain_split (VTuple [VInt 1]) w0);
    reflexivity.
Defined.

(** ** Recovery and the parser in the retry loop *)

Section Recovery.
Context {U : Type}.
Implicit Types (self : block U) (data : value) (w : world U).

Lemma count_sleep_app (t1 t2 : list event) :
  count_sleep (t1 ++ t2) = (count_sleep t1 + count_sleep t2)%nat.
Proof.
  induction t1 as [|ev t1 IH]; simpl; [done|].
  destruct ev; simpl; lia.
Qed.

Lemma retry_loop_recovers self data k n w v w' :
  (k <= n)%nat ->
  fails_then_succeeds self data k w v w' ->
  retry_loop self data n w = (Ret v, w') /\
  count_forward (trace w') = (count_forward (trace w) + S k)%nat /\
  count_sleep (trace w') = (count_sleep (trace w) + k)%nat.
Proof.
  revert n w. induction k as [|k IH]; intros n w Hle; simpl.
  - intros Ha. pose proof (attempt_trace _ _ _ _ _ Ha) as Ht.
    split.
    + destruct n as [|n]; simpl; [done|]. unfold try_except. by rewrite Ha.
    + rewrite Ht, count_forward_app, count_sleep_app. simpl. lia.
  - intros (e & w1 & Ha & Hre & Hrest).
    destruct n as [|n]; [lia|].
    pose proof (attempt_trace _ _ _ _ _ Ha) as Ht.
    apply (IH n) in Hrest as (Hloop & Hf & Hs); [|lia].
    simpl in Hf, Hs. rewrite Ht in Hf, Hs.
    rewrite !count_forward_app in Hf. rewrite !count_sleep_app in Hs.
    simpl in Hf, Hs.
    split; [|lia].
    simpl. unfold try_except. rewrite Ha, Hre. unfold bind, emit. exact Hloop.
Qed.

(** When the first [k] attempts raise retryable errors and the next one
    returns, with [k] within the retry count, the call returns that
    result after [k + 1] attempts and [k] delays: the retries that are
    left are not used. *)
Theorem retry_recovers self data k w v w' :
  has_been_initialized_properly self = true ->
  cls self <> ClsSplit ->
  Z.of_nat k <= retry_count self ->
  fails_then_succeeds self data k w v w' ->
  call self data w = (Ret v, w') /\
  count_forward (trace w') = (count_forward (trace w) + S k)%nat /\
  count_sleep (trace w') = (count_sleep (trace w) + k)%nat.
Proof.
  intros Hinit Hcls Hk Hrun.
  assert (Hcall : call self data = Action_call self data).
  { unfold call. destruct (cls self); congruence. }
  rewrite Hcall. unfold Action_call. rewrite Hinit. simpl.
  apply retry_loop_recovers; [lia|done].
Qed.

(** The retry loop on attempts that all raise a retryable error,
    whether the core logic or the parser raises it. *)
Lemma retry_loop_attempts_all_fail self data n :
  (forall w0, exists e w1,
      attempt self data w0 = (Raise e, w1) /\ retryable self e = true) ->
  forall w, exists e w_last w',
    retry_loop self data n w = (Raise e, w') /\
    attempt self data w_last = (Raise e, w') /\
    trace w' = trace w ++ protected_attempts self data n
                 ++ [EvForward (__name__ self) data].
Proof.
  intros Hfail. induction n as [|n IH]; intros w.
  - destruct (Hfail w) as (e & w1 & Ha & _).
    exists e, w, w1. simpl. split; [done|]. split; [done|].
    by apply attempt_trace in Ha.
  - destruct (Hfail w) as (e1 & w1 & Ha & Hre).
    pose (w2 := World (ustate w1) (trace w1 ++ [EvSleep (retry_delay self)])).
    destruct (IH w2) as (e & w_last & w' & Hloop & Hlast & Htr).
    exists e, w_last, w'. split; [|split; [done|]].
    + simpl. unfold try_except. rewrite Ha, Hre. unfold bind, emit.
      exact Hloop.
    + rewrite Htr. simpl. apply attempt_trace in Ha. rewrite Ha.
      by rewrite <- !app_assoc.
Qed.

(** An error of the parser is retried like an error of the core logic:
    when the core logic returns on every call and the parser raises a
    retryable error on every result, the core logic runs
    [retry_count + 1] times, with a delay after each but the last, and
    the call raises the parser's error. *)
Theorem parser_errors_are_retried self data w :
  has_been_initialized_properly self = true ->
  cls self <> ClsSplit ->
  0 <= retry_count self ->
  (forall w0, exists v w1 e,
      forward self data w0 = (Ret v, w1) /\
      parser self v = inl e /\ retryable self e = true) ->
  exists v w_last e w',
    call self data w = (Raise e, w') /\
    forward self data w_last = (Ret v, w') /\
    parser self v = inl e /\
    trace w' = trace w
                 ++ protected_attempts self data (Z.to_nat (retry_count self))
                 ++ [EvForward (__name__ self) data] /\
    Z.of_nat (count_forward (trace w'))
      = Z.of_nat (count_forward (trace w)) + retry_count self + 1.
Proof.
  intros Hinit Hcls Hn Hfail.
  assert (Hattempt : forall w0, exists e w1,
    attempt self data w0 = (Raise e, w1) /\ retryable self e = true).
  { intros w0. destruct (Hfail w0) as (v & w1 & e & Hf & Hp & Hre).
    exists e, w1. split; [|done].
    unfold attempt, bind, lift. by rewrite Hf, Hp. }
  destruct (retry_loop_attempts_all_fail self data
              (Z.to_nat (retry_count self)) Hattempt w)
    as (e & w_last & w' & Hloop & Hlast & Htr).
  destruct (Hfail w_last) as (v & w1 & e' & Hf & Hp & _).
  assert (e' = e /\ w1 = w') as [-> ->].
  { unfold attempt, bind, lift in Hlast. rewrite Hf, Hp in Hlast.
    by injection Hlast as -> ->. }
  exists v, w_last, e, w'.
  assert (Hcall : call self data = Action_call self data).
  { unfold call. destruct (cls self); congruence. }
  rewrite Hcall. unfold Action_call. rewrite Hinit. simpl.
  split; [done|]. split; [done|]. split; [done|]. split; [done|].
  rewrite Htr, !count_forward_app, count_forward_protected. simpl. lia.
Qed.

End Recovery.

Lemma retry_recovers_witness :
  (has_been_initialized_properly flaky_action = true /\
   cls flaky_action <> ClsSplit /\
   Z.of_nat 2 <= retry_count flaky_action /\
   fails_then_succeeds flaky_action (VInt 7) 2 w0 (VInt 7)
     (snd (call flaky_action (VInt 7) w0))) /\
  call flaky_action (VInt 7) w0
    = (Ret (VInt 7), snd (call flaky_action (VInt 7) w0)) /\
  count_forward (trace (snd (call flaky_action (VInt 7) w0)))
    = (count_forward (trace w0) + 3)%nat /\
  count_sleep (trace (snd (call flaky_action (VInt 7) w0)))
    = (count_sleep (trace w0) + 2)%nat.
Proof.
  assert (Hrun : fails_then_succeeds flaky_action (VInt 7) 2 w0 (VInt 7)
                   (snd (call flaky_action (VInt 7) w0))).
  { simpl. eexists _, _. split; [reflexivity|]. split; [reflexivity|].
    eexists _, _. split; [reflexivity|]. split; reflexivity. }
  split.
  - split; [reflexivity|]. split; [discriminate|]. split; [simpl; lia|].
    exact Hrun.
  - apply (retry_recovers flaky_action (VInt 7) 2 w0 (VInt 7));
      [reflexivity | discriminate | simpl; lia | exact Hrun].
Defined.

Lemma parser_errors_are_retried_witness :
  (has_been_initialized_properly strict_parser_action = true /\
   cls strict_parser_action <> ClsSplit /\
   0 <= retry_count strict_parser_action) /\
  exists v w_last e w',
    call strict_parser_action (VInt 7) w0 = (Raise e, w') /\
    forward strict_parser_action (VInt 7) w_last = (Ret v, w') /\
    parser strict_parser_action v = inl e /\
    trace w' = trace w0
                 ++ protected_attempts strict_parser_action (VInt 7)
                      (Z.to_nat (retry_count strict_parser_action))
                 ++ [EvForward (__name__ strict_parser_action) (VInt 7)] /\
    Z.of_nat (count_forward (trace w'))
      = Z.of_nat (count_forward (trace w0))
        + retry_count strict_parser_action + 1.
Proof.
  split.
  - split; [reflexivity|]. split; [discriminate|simpl; lia].
  - apply (parser_errors_are_retried strict_parser_action (VInt 7) w0);
      [reflexivity | discriminate | simpl; lia |].
    intros w. eexists _, _, _. split; [reflexivity|]. split; reflexivity.
Defined.

(** ** The flattener on arbitrary records *)

Lemma flatten_loop_cons_ok (r : value) (rest acc : list value) :
  record_ok r = true ->
  flatten_loop (r :: rest) acc = flatten_loop rest (acc ++ emitted r).
Proof.
  destruct r as [| | | | | |d|]; try done.
  unfold record_ok, emitted. simpl.
  destruct (dict_get d "event_name") as [n|]; [|done].
  destruct (dict_get d "result") as [res|]; [|done].
  destruct (dict_get d "chain") as [ch|]; simpl.
  - destruct (is_none ch) eqn:En; simpl; [done|].
    destruct (iter_value ch) as [e|items]; [done|].
    intros _. by rewrite <- app_assoc.
  - done.
Qed.

Lemma flatten_loop_bad (r : value) (rest acc : list value) :
  record_ok r = false ->
  exists e, flatten_loop (r :: rest) acc = inl e.
Proof.
  destruct r as [| | | | | |d|]; simpl; eauto.
  destruct (dict_get d "event_name") as [n|]; [|eauto].
  destruct (dict_get d "result") as [res|]; [|eauto].
  destruct (dict_get d "chain") as [ch|]; simpl; [|done].
  destruct (is_none ch); simpl; [done|].
  destruct (iter_value ch) as [e|items]; [eauto|done].
Qed.

Lemma flatten_loop_ok (results acc : list value) :
  forallb record_ok results = true ->
  flatten_loop results acc = inr (acc ++ concat (map emitted results)).
Proof.
  revert acc. induction results as [|r results IH]; intros acc.
  - intros _. simpl. by rewrite app_nil_r.
  - cbn [forallb map concat]. intros H.
    apply andb_true_iff in H as [Hr Hrest].
    rewrite flatten_loop_cons_ok, IH by done.
    by rewrite <- app_assoc.
Qed.

(** The flattener returns exactly on the sequences in which every
    record is a dictionary with the keys "event_name" and "result" and a
    chain that is absent, [None] or iterable; it then returns, record
    by record, the pair of the two keys (every other key is dropped)
    followed by the elements of the chain.  On any other sequence it
    raises and returns nothing; the first record that lacks a key makes
    it raise the [KeyError] of that key. *)
Theorem flatten_results_outcomes (results : list value) :
  (forallb record_ok results = true ->
   flatten_results results = inr (concat (map emitted results))) /\
  (forallb record_ok results = false ->
   exists e, flatten_results results = inl e) /\
  (forall before d after,
     results = before ++ VDict d :: after ->
     forallb record_ok before = true ->
     (dict_get d "event_name" = None ->
      flatten_results results = inl (KeyError "event_name")) /\
     (is_Some (dict_get d "event_name") -> dict_get d "result" = None ->
      flatten_results results = inl (KeyError "result"))).
Proof.
  unfold flatten_results. split; [|split].
  - intros H. by rewrite flatten_loop_ok.
  - generalize (@nil value) as acc.
    induction results as [|r results IH]; intros acc; [done|].
    cbn [forallb]. intros H. destruct (record_ok r) eqn:Hr.
    + rewrite flatten_loop_cons_ok by done. by apply IH.
    + by apply flatten_loop_bad.
  - intros before d after -> Hbefore.
    assert (Hpre : forall acc,
      flatten_loop (before ++ VDict d :: after) acc
      = flatten_loop (VDict d :: after)
          (acc ++ concat (map emitted before))).
    { clear -Hbefore. induction before as [|r before IH]; intros acc.
      - simpl. by rewrite app_nil_r.
      - cbn [forallb] in Hbefore.
        apply andb_true_iff in Hbefore as [Hr Hrest].
        cbn [app map concat].
        rewrite flatten_loop_cons_ok, IH by done.
        by rewrite <- app_assoc. }
    rewrite Hpre. simpl. split.
    + by intros ->.
    + intros [n ->] ->. done.
Qed.

Lemma flatten_results_outcomes_witness :
  (forallb record_ok [tagged_record] = true /\
   flatten_results [tagged_record]
     = inr [VDict [("event_name", VStr "A"); ("result", VInt 1)]]) /\
  (forallb record_ok [tagged_record; no_result_record] = false /\
   flatten_results [tagged_record; no_result_record]
     = inl (KeyError "result")).
Proof.
  destruct (flatten_results_outcomes [tagged_record]) as (H1 & _ & _).
  destruct (flatten_results_outcomes [tagged_record; no_result_record])
    as (_ & _ & H3).
  split.
  - split; [reflexivity|]. apply H1. reflexivity.
  - split; [reflexivity|].
    apply (H3 [tagged_record]
             [("event_name", VStr "B"); ("chain", VNone)] []);
      [reflexivity | reflexivity | by eexists | reflexivity].
Defined.




(** ** The registry over time *)

Section Registry.
Context {U : Type} (heap : ref -> block U).
Implicit Types (d : Director) (listener : ref).

Lemma list_remove_last (x : ref) (l : list ref) :
  x ∉ l -> list_remove x (l ++ [x]) = inr l.
Proof.
  induction l as [|y l IH]; simpl; intros Hnot.
  - by rewrite bool_decide_eq_true_2.
  - apply not_elem_of_cons in Hnot as [Hne Hnot].
    rewrite bool_decide_eq_false_2 by congruence. by rewrite IH.
Qed.

(** Wiring a registered action to an event it is not subscribed to and
    unwiring it again gives back the subscribers and the registry; an
    event that had no entry keeps one, with no subscriber. *)
Theorem add_then_remove_subscription event_name action_name listener d :
  actions d !! action_name = Some listener ->
  listener ∉ default [] (listeners d !! event_name) ->
  exists d1 d2,
    add_subscription event_name action_name d = inr d1 /\
    remove_subscription event_name action_name d1 = inr d2 /\
    get_subscriptions heap event_name d2 = get_subscriptions heap event_name d /\
    actions d2 = actions d /\
    listeners d2 =
      <[event_name := default [] (listeners d !! event_name)]> (listeners d).
Proof.
  intros Hreg Hnot. unfold add_subscription. rewrite Hreg.
  eexists _, _. split; [done|]. rewrite setdefault_append.
  unfold remove_subscription. simpl. rewrite Hreg, lookup_insert_eq.
  rewrite list_remove_last by done. split; [done|]. simpl.
  rewrite insert_insert_eq. split; [|done].
  unfold get_subscriptions. simpl. rewrite lookup_insert_eq.
  by destruct (listeners d !! event_name).
Qed.

Lemma apply_op_keeps_registered o d d' action_name listener :
  apply_op heap o d = inr d' ->
  actions d !! action_name = Some listener ->
  actions d' !! action_name = Some listener.
Proof.
  destruct o as [event_name l|event_name n|event_name n]; simpl.
  - intros Hsub Hreg. apply subscribe_ok_inv in Hsub as [-> Hsame]. simpl.
    destruct (decide (__name__ (heap l) = action_name)) as [<-|Hne].
    + rewrite (Hsame _ Hreg). apply lookup_insert_eq.
    + by rewrite lookup_insert_ne.
  - unfold add_subscription. destruct (actions d !! n); [|done].
    by intros [= <-].
  - unfold remove_subscription. destruct (actions d !! n); [|done].
    destruct (listeners d !! event_name) as [subscribers|].
    + destruct (list_remove _ _); [done|]. by intros [= <-].
    + by intros [= <-].
Qed.

Lemma run_ops_keeps_registered ops d action_name listener :
  actions d !! action_name = Some listener ->
  actions (run_ops heap ops d) !! action_name = Some listener.
Proof.
  revert d. induction ops as [|o ops IH]; intros d Hreg; simpl; [done|].
  destruct (apply_op heap o d) as [e|d'] eqn:E; [by apply IH|].
  apply IH. by apply (apply_op_keeps_registered o d).
Qed.

(** A registration is for good: no sequence of [subscribe],
    [add_subscription] and [remove_subscription] unregisters a name or
    gives it to another listener, so after any of them another
    instance of that name is still refused. *)
Theorem registration_is_permanent ops d action_name listener :
  actions d !! action_name = Some listener ->
  actions (run_ops heap ops d) !! action_name = Some listener /\
  forall event_name other,
    __name__ (heap other) = action_name -> other <> listener ->
    subscribe heap event_name other (run_ops heap ops d)
      = inl (DuplicateNameError action_name).
Proof.
  intros Hreg. apply (run_ops_keeps_registered ops) in Hreg.
  split; [done|]. intros event_name other <- Hne.
  unfold subscribe. rewrite Hreg.
  rewrite (bool_decide_eq_false_2 (other = listener)) by done. simpl.
  by rewrite bool_decide_eq_true_2.
Qed.

(** In a director built from a new one by these calls, names identify
    subscribers: two subscribed listeners of one name are one object,
    and every registered name is the name of its listener. *)
Theorem subscribed_names_identify
    max_concurrent_actions max_logs depth_first flatten_results d0 ops :
  Director_init max_concurrent_actions max_logs depth_first flatten_results
    = inr d0 ->
  (forall l1 l2,
     subscribed (listeners (run_ops heap ops d0)) l1 ->
     subscribed (listeners (run_ops heap ops d0)) l2 ->
     __name__ (heap l1) = __name__ (heap l2) ->
     l1 = l2) /\
  (forall action_name listener,
     actions (run_ops heap ops d0) !! action_name = Some listener ->
     __name__ (heap listener) = action_name).
Proof.
  intros Hinit.
  destruct (run_ops_wf heap ops d0
              (Director_init_wf heap _ _ _ _ d0 Hinit)) as [Hreg Hkey].
  split; [|exact Hkey].
  intros l1 l2 (ev1 & subs1 & Hl1 & Hin1) (ev2 & subs2 & Hl2 & Hin2) Hname.
  pose proof (Hreg _ _ _ Hl1 Hin1) as H1.
  pose proof (Hreg _ _ _ Hl2 Hin2) as H2.
  rewrite Hname in H1. congruence.
Qed.

End Registry.

Lemma add_then_remove_subscription_witness :
  (actions (two_subscribers false false) !! "A" = Some 0%nat /\
   0%nat ∉ default [] (listeners (two_subscribers false false) !! "other")) /\
  exists d1 d2,
    add_subscription "other" "A" (two_subscribers false false) = inr d1 /\
    remove_subscription "other" "A" d1 = inr d2 /\
    get_subscriptions stage "other" d2
      = get_subscriptions stage "other" (two_subscribers false false) /\
    actions d2 = actions (two_subscribers false false) /\
    listeners d2 =
      <["other" :=
          default [] (listeners (two_subscribers false false) !! "other")]>
        (listeners (two_subscribers false false)).
Proof.
  assert (Hreg : actions (two_subscribers false false) !! "A" = Some 0%nat).
  { vm_compute. reflexivity. }
  assert (Hnot : 0%nat ∉
            default [] (listeners (two_subscribers false false) !! "other")).
  { replace (listeners (two_subscribers false false) !! "other")
      with (@None (list ref)) by (vm_compute; reflexivity).
    apply not_elem_of_nil. }
  split; [by split|].
  exact (add_then_remove_subscription stage "other" "A" 0%nat
           (two_subscribers false false) Hreg Hnot).
Defined.

Lemma registration_is_permanent_witness :
  actions (two_subscribers false false) !! "A" = Some 0%nat /\
  actions (run_ops three_objects [OpRemoveSubscription "start" "A"]
             (two_subscribers false false)) !! "A" = Some 0%nat /\
  forall event_name other,
    __name__ (three_objects other) = "A" -> other <> 0%nat ->
    subscribe three_objects event_name other
      (run_ops three_objects [OpRemoveSubscription "start" "A"]
         (two_subscribers false false))
      = inl (DuplicateNameError "A").
Proof.
  assert (Hreg : actions (two_subscribers false false) !! "A" = Some 0%nat).
  { vm_compute. reflexivity. }
  split; [exact Hreg|].
  exact (registration_is_permanent three_objects
           [OpRemoveSubscription "start" "A"] (two_subscribers false false)
           "A" 0%nat Hreg).
Defined.

Lemma subscribed_names_identify_witness :
  Director_init 100 1000 false false = inr fresh_director /\
  (forall l1 l2,
     subscribed (listeners (run_ops stage
        [OpSubscribe "start" 0%nat; OpSubscribe "A" 1%nat] fresh_director)) l1 ->
     subscribed (listeners (run_ops stage
        [OpSubscribe "start" 0%nat; OpSubscribe "A" 1%nat] fresh_director)) l2 ->
     __name__ (stage l1) = __name__ (stage l2) ->
     l1 = l2) /\
  (forall action_name listener,
     actions (run_ops stage
        [OpSubscribe "start" 0%nat; OpSubscribe "A" 1%nat] fresh_director)
       !! action_name = Some listener ->
     __name__ (stage listener) = action_name).
Proof.
  split; [reflexivity|].
  apply (subscribed_names_identify stage 100 1000 false false fresh_director).
  reflexivity.
Defined.

(** ** What every dispatch keeps *)

Section Keeps.
Context {U : Type} (heap : ref -> block U).
Context (Pre : dstate U -> Prop).
Context (R : bool -> dstate U -> dstate U -> Prop).
Context (R_refl : forall b s, R b s s).
Context (R_trans : forall b s1 s2 s3, R true s1 s2 -> R b s2 s3 -> R b s1 s3).
Context (log_keeps : forall s message,
  Pre s ->
  Pre (DState (log_append (director s) message) (wld s)) /\
  R true s (DState (log_append (director s) message) (wld s))).
Context (listener_keeps : forall s0 event_name subscribers listener,
  Pre s0 ->
  listeners (director s0) !! event_name = Some subscribers ->
  listener ∈ subscribers ->
  forall data, keeps Pre R (_handle_listener heap listener data)).
Context (semaphore_keeps : forall s s1,
  Pre s -> acquire s = (Ret tt, s1) ->
  Pre s1 /\
  (forall s2, Pre s2 -> Pre (release s2)) /\
  (forall s2, R true s1 s2 -> R true s (release s2)) /\
  (forall s2, R false s1 s2 -> R false s s2)).

Lemma keeps_ret {A} (a : A) : keeps Pre R (ret a).
Proof. intros s r s' HP [= <- <-]. done. Qed.

Lemma keeps_lift {A} (x : exn + A) : keeps Pre R (lift x).
Proof. intros s r s' HP [= <- <-]. split; [done|]. by destruct x. Qed.

Lemma keeps_get_director : keeps Pre R (fun s => (Ret (director s), s)).
Proof. intros s r s' HP [= <- <-]. done. Qed.

Lemma keeps_log message : keeps Pre R (log message).
Proof. intros s r s' HP [= <- <-]. by apply log_keeps. Qed.

Lemma keeps_bind {A B} (c : M (dstate U) A) (k : A -> M (dstate U) B) :
  keeps Pre R c -> (forall a, keeps Pre R (k a)) -> keeps Pre R (bind c k).
Proof.
  intros Hc Hk s r s' HP. unfold bind.
  destruct (c s) as [[a|e| |] s1] eqn:Ec;
    destruct (Hc _ _ _ HP Ec) as [HP1 HR1]; simpl in HR1.
  - intros Hka. destruct (Hk a _ _ _ HP1 Hka) as [HP2 HR2].
    split; [done|]. by apply (R_trans _ s s1 s').
  - by intros [= <- <-].
  - by intros [= <- <-].
  - by intros [= <- <-].
Qed.

Lemma keeps_create_task {A} (c : M (dstate U) A) :
  keeps Pre R c -> keeps Pre R (create_task c).
Proof.
  intros Hc s r s' HP. unfold create_task.
  destruct (c s) as [[a|e| |] s1] eqn:Ec;
    destruct (Hc _ _ _ HP Ec) as [HP1 HR1]; by intros [= <- <-].
Qed.

Lemma keeps_with_semaphore {A} (body : M (dstate U) A) :
  keeps Pre R body -> keeps Pre R (with_semaphore body).
Proof.
  intros Hb s r s' HP. unfold with_semaphore, bind.
  destruct (acquire s) as [[[]|e| |] s1] eqn:Ea.
  - destruct (semaphore_keeps s s1 HP Ea) as (HP1 & Hrel & Htrue & Hfalse).
    destruct (body s1) as [[a|e| |] s2] eqn:Eb;
      destruct (Hb _ _ _ HP1 Eb) as [HP2 HR2]; simpl in HR2;
      intros [= <- <-]; simpl; auto.
  - unfold acquire in Ea. by destruct (semaphore (director s)).
  - unfold acquire in Ea. destruct (semaphore (director s)); [|done].
    injection Ea as <-. by intros [= <- <-].
  - unfold acquire in Ea. by destruct (semaphore (director s)).
Qed.

Section KeepsLoops.
Context (Director_call : string -> value -> M (dstate U) value).
Context (Director_call_keeps : forall event_name data,
  keeps Pre R (Director_call event_name data)).

Lemma keeps_await_chain event_name result chain return_results :
  keeps Pre R
    (await_chain Director_call event_name result chain return_results).
Proof.
  revert return_results. induction chain as [|process chain IH];
    intros return_results; simpl.
  - apply keeps_ret.
  - apply keeps_bind; [apply Director_call_keeps|]. intros output. apply IH.
Qed.

Lemma keeps_event_loop events return_results :
  keeps Pre R (event_loop Director_call events return_results).
Proof.
  revert return_results. induction events as [|event events IH];
    intros return_results; simpl.
  - apply keeps_ret.
  - apply keeps_bind; [apply keeps_lift|]. intros completed.
    apply keeps_bind; [apply keeps_await_chain|]. intros rr. apply IH.
Qed.

Lemma keeps_listener_loop subscribers data return_results events :
  Forall (fun listener =>
            forall data0, keeps Pre R (_handle_listener heap listener data0))
    subscribers ->
  keeps Pre R
    (listener_loop heap Director_call subscribers data return_results events).
Proof.
  intros Hsubs. revert data return_results events.
  induction Hsubs as [|listener subscribers Hl _ IH];
    intros data return_results events; simpl.
  - apply keeps_ret.
  - apply keeps_bind; [apply keeps_create_task, Hl|].
    intros completed. apply keeps_bind; [apply keeps_get_director|].
    intros d. destruct (depth_first d); [|apply IH].
    apply keeps_bind; [apply keeps_lift|]. intros c.
    apply keeps_bind; [apply keeps_await_chain|]. intros rr. apply IH.
Qed.

Lemma keeps_call_body event_name data :
  keeps Pre R (call_body heap Director_call event_name data).
Proof.
  intros s r s' HP. unfold call_body. unfold bind at 1. simpl.
  destruct (listeners (director s) !! event_name) as [subscribers|] eqn:E.
  - assert (Hsubs : Forall (fun listener => forall data0,
              keeps Pre R (_handle_listener heap listener data0))
              subscribers).
    { apply Forall_forall. intros listener Hin.
      by apply (listener_keeps s event_name subscribers). }
    refine (keeps_bind _ _ _ _ s r s' HP); [apply keeps_log|]. intros _.
    apply keeps_bind; [by apply keeps_listener_loop|]. intros looped.
    apply keeps_bind; [apply keeps_event_loop|]. intros rr.
    apply keeps_bind; [apply keeps_log|]. intros _.
    apply keeps_bind; [apply keeps_get_director|]. intros d.
    destruct (flatten d); [|apply keeps_ret].
    apply keeps_bind; [apply keeps_lift|]. intros flat. apply keeps_ret.
  - refine (keeps_bind _ _ _ _ s r s' HP); [apply keeps_log|]. intros _.
    apply keeps_ret.
Qed.

End KeepsLoops.

Lemma keeps_Director_call fuel event_name data :
  keeps Pre R (Director_call heap fuel event_name data).
Proof.
  revert event_name data. induction fuel as [|fuel IH];
    intros event_name data; simpl.
  - intros s r s' HP [= <- <-]. done.
  - apply keeps_with_semaphore. by apply keeps_call_body.
Qed.

End Keeps.

Section Kept.
Context {U : Type} (heap : ref -> block U).
Implicit Types (s : dstate U) (data : value).

Lemma log_append_within_capacity (d : Director) (message : string) :
  (length (logs (log_append d message)) <= max_logs (log_append d message))%nat.
Proof. unfold log_append. simpl. rewrite length_drop. lia. Qed.

Lemma Director_call_same_configuration fuel event_name data :
  keeps (fun _ => True) same_configuration
    (Director_call heap fuel event_name data).
Proof.
  apply keeps_Director_call.
  - intros b s. unfold same_configuration. repeat split; done.
  - intros b s1 s2 s3 (H1 & H2 & H3 & H4 & H5 & H6 & H7)
      (G1 & G2 & G3 & G4 & G5 & G6 & G7).
    unfold same_configuration.
    repeat split; try congruence.
    + intros Hb. rewrite (G6 Hb). by apply H6.
    + intros Hlen. apply G7. by apply H7.
  - intros s message _. split; [done|].
    unfold same_configuration. simpl. repeat split; try done.
    intros _. rewrite length_drop. lia.
  - intros s0 event_name0 subscribers listener _ _ _ data0 s r s' _ H.
    apply handle_listener_trace in H as (Hd & _ & _).
    split; [done|]. unfold same_configuration. rewrite Hd.
    repeat split; done.
  - intros s s1 _ Hacq. unfold acquire in Hacq.
    destruct (semaphore (director s)) as [|n] eqn:En; [done|].
    injection Hacq as <-. split; [done|]. split; [done|].
    unfold same_configuration, release. simpl.
    split.
    + intros s2 (H1 & H2 & H3 & H4 & H5 & H6 & H7).
      repeat split; try done. intros _. by rewrite H6.
    + intros s2 (H1 & H2 & H3 & H4 & H5 & H6 & H7).
      repeat split; done.
Qed.

(** A dispatch never touches the subscriptions, the registry, the two
    mode flags or the capacity of the log, and when it comes back, with
    a result or with an error, every permit it and its recursive
    dispatches took has been given back. *)
Theorem dispatch_restores_permits fuel event_name data s r s' :
  Director_call heap fuel event_name data s = (r, s') ->
  listeners (director s') = listeners (director s) /\
  actions (director s') = actions (director s) /\
  depth_first (director s') = depth_first (director s) /\
  flatten (director s') = flatten (director s) /\
  max_logs (director s') = max_logs (director s) /\
  (is_settled r = true ->
   semaphore (director s') = semaphore (director s)).
Proof.
  intros H.
  destruct (Director_call_same_configuration fuel event_name data s r s' I H)
    as (_ & H1 & H2 & H3 & H4 & H5 & H6 & _).
  done.
Qed.

(** The log never outgrows its capacity: a dispatch that starts with a
    log within [max_logs] entries ends with one, however many messages
    it and its recursive dispatches append. *)
Theorem dispatch_keeps_log_within_capacity fuel event_name data s r s' :
  (length (logs (director s)) <= max_logs (director s))%nat ->
  Director_call heap fuel event_name data s = (r, s') ->
  (length (logs (director s')) <= max_logs (director s))%nat.
Proof.
  intros Hlen H.
  destruct (Director_call_same_configuration fuel event_name data s r s' I H)
    as (_ & _ & _ & _ & _ & H5 & _ & H7).
  rewrite <- H5. by apply H7.
Qed.

(** Every listener that a dispatch calls, at any depth of the
    recursion, is a subscriber of some event of the director. *)
Theorem only_subscribers_are_called fuel event_name data s r s' :
  Director_call heap fuel event_name data s = (r, s') ->
  exists t,
    trace (wld s') = trace (wld s) ++ t /\
    forall called payload,
      (called, payload) ∈ calls t ->
      exists listener,
        subscribed (listeners (director s)) listener /\
        called = __name__ (heap listener).
Proof.
  intros H.
  assert (Hk : keeps (fun s0 => listeners (director s0) = listeners (director s))
                 (calls_subscribers heap (listeners (director s)))
                 (Director_call heap fuel event_name data)).
  { apply keeps_Director_call.
    - intros b s0. exists []. rewrite app_nil_r. done.
    - intros b s1 s2 s3 (t1 & Ht1 & Hc1) (t2 & Ht2 & Hc2).
      exists (t1 ++ t2). rewrite Ht2, Ht1, app_assoc. split; [done|].
      rewrite calls_app. by apply Forall_app.
    - intros s0 message HP. split; [done|]. exists []. simpl.
      by rewrite app_nil_r.
    - intros s0 event_name0 subscribers listener HP Hl Hin data0 s1 r1 s1'
        HP1 Hh.
      apply handle_listener_trace in Hh as (Hd & _ & t & Ht & Hc).
      split; [by rewrite Hd|].
      exists (EvCall (__name__ (heap listener)) data0 :: t).
      split; [done|]. simpl. rewrite Hc. constructor; [|done].
      exists listener. split; [|done].
      exists event_name0, subscribers. by rewrite <- HP.
    - intros s0 s1 HP Hacq. unfold acquire in Hacq.
      destruct (semaphore (director s0)) as [|n]; [done|].
      injection Hacq as <-. split; [done|]. split; [done|].
      split; intros s2 (t & Ht & Hc); exists t; done. }
  destruct (Hk s r s' eq_refl H) as [_ (t & Ht & Hc)].
  exists t. split; [done|]. intros called payload Hin.
  rewrite Forall_forall in Hc. destruct (Hc _ Hin) as (listener & ? & ?).
  by exists listener.
Qed.

End Kept.

Lemma dispatch_restores_permits_witness :
  Director_call stage 4 "start" (VInt 7) (DState (pipeline false false) w0)
    = (fst (Director_call stage 4 "start" (VInt 7)
              (DState (pipeline false false) w0)),
       snd (Director_call stage 4 "start" (VInt 7)
              (DState (pipeline false false) w0))) /\
  is_settled (fst (Director_call stage 4 "start" (VInt 7)
                     (DState (pipeline false false) w0))) = true /\
  semaphore (director (snd (Director_call stage 4 "start" (VInt 7)
                              (DState (pipeline false false) w0))))
    = semaphore (pipeline false false).
Proof.
  assert (H := surjective_pairing
                 (Director_call stage 4 "start" (VInt 7)
                    (DState (pipeline false false) w0))).
  split; [exact H|]. split; [vm_compute; reflexivity|].
  apply (dispatch_restores_permits stage 4 "start" (VInt 7) _ _ _ H).
  vm_compute. reflexivity.
Defined.

Lemma dispatch_keeps_log_within_capacity_witness :
  (length (logs tight_log_pipeline) <= max_logs tight_log_pipeline)%nat /\
  logs (director (snd (Director_call stage 4 "start" (VInt 7)
                         (DState tight_log_pipeline w0))))
    = ["Events for 'A' completed"; "Events for 'start' completed"] /\
  (length (logs (director (snd (Director_call stage 4 "start" (VInt 7)
                                  (DState tight_log_pipeline w0)))))
     <= max_logs tight_log_pipeline)%nat.
Proof.
  assert (Hlen : (length (logs tight_log_pipeline)
                  <= max_logs tight_log_pipeline)%nat).
  { vm_compute. lia. }
  split; [exact Hlen|]. split; [vm_compute; reflexivity|].
  apply (dispatch_keeps_log_within_capacity stage 4 "start" (VInt 7)
           (DState tight_log_pipeline w0)
           (fst (Director_call stage 4 "start" (VInt 7)
                   (DState tight_log_pipeline w0))) _ Hlen).
  apply surjective_pairing.
Defined.

Lemma only_subscribers_are_called_witness :
  calls (trace (wld (snd (Director_call stage 4 "start" (VInt 7)
                            (DState (pipeline false false) w0)))))
    = [("A", VInt 7); ("B", VInt 7); ("C", VInt 7)] /\
  exists t,
    trace (wld (snd (Director_call stage 4 "start" (VInt 7)
                       (DState (pipeline false false) w0))))
      = trace (wld (DState (pipeline false false) w0)) ++ t /\
    forall called payload,
      (called, payload) ∈ calls t ->
      exists listener,
        subscribed (listeners (director (DState (pipeline false false) w0)))
          listener /\
        called = __name__ (stage listener).
Proof.
  split; [vm_compute; reflexivity|].
  apply (only_subscribers_are_called stage 4 "start" (VInt 7)
           (DState (pipeline false false) w0)
           (fst (Director_call stage 4 "start" (VInt 7)
                   (DState (pipeline false false) w0)))).
  apply surjective_pairing.
Defined.

(** ** Events without subscribers left *)

Section EmptyEvent.
Context {U : Type} (heap : ref -> block U).
Implicit Types (s : dstate U) (data : value).

(** An event keeps its entry when its last subscriber is removed, and a
    dispatch of an event with an entry and no subscriber returns the
    empty list, not [None]: it logs that it processes the event and
    that the event completed, and gives its permit back. *)
Theorem dispatch_of_emptied_event fuel event_name data s :
  semaphore (director s) <> 0%nat ->
  listeners (director s) !! event_name = Some [] ->
  Director_call heap (S fuel) event_name data s
    = (Ret (VList []),
       DState (log_append
                 (log_append (director s)
                    ("Processing events for '" +:+ event_name +:+ "'"))
                 ("Events for '" +:+ event_name +:+ "' completed"))
         (wld s)) /\
  forall d action_name listener,
    actions d !! action_name = Some listener ->
    listeners d !! event_name = Some [listener] ->
    exists d',
      remove_subscription event_name action_name d = inr d' /\
      listeners d' !! event_name = Some [].
Proof.
  intros Hsem Hempty. split.
  - simpl. unfold with_semaphore, bind, acquire.
    destruct s as [[L lg ml sem df fl acts] w]. simpl in *.
    destruct sem as [|n]; [done|]. simpl.
    unfold call_body, bind. simpl. rewrite Hempty. simpl.
    by destruct fl.
  - intros d action_name listener Hreg Hsub.
    unfold remove_subscription. rewrite Hreg, Hsub. simpl.
    rewrite bool_decide_eq_true_2 by done.
    eexists. split; [done|]. simpl. apply lookup_insert_eq.
Qed.

End EmptyEvent.

Lemma dispatch_of_emptied_event_witness :
  (semaphore emptied_event <> 0%nat /\
   listeners emptied_event !! "start" = Some []) /\
  Director_call stage 1 "start" (VInt 7) (DState emptied_event w0)
    = (Ret (VList []),
       DState (log_append
                 (log_append emptied_event
                    ("Processing events for '" +:+ "start" +:+ "'"))
                 ("Events for '" +:+ "start" +:+ "' completed"))
         w0).
Proof.
  assert (H : listeners emptied_event !! "start" = Some []).
  { vm_compute. reflexivity. }
  split; [split; [discriminate|exact H]|].
  apply (dispatch_of_emptied_event stage 0 "start" (VInt 7)
           (DState emptied_event w0)); [discriminate|exact H].
Defined.

(** ** Errors of listeners *)

Section ListenerErrors.
Context {U : Type} (heap : ref -> block U).
Implicit Types (s : dstate U) (data : value) (listener : ref).







End ListenerErrors.


(** The two orders on a first subscriber that raises: depth-first stops
    there, breadth-first has called [B] as well. *)
Example failing_first_runs :
  calls (trace (wld (snd (Director_call failing_stage 2 "start" (VInt 7)
                            (DState (failing_first true) w0)))))
    = [("F", VInt 7)] /\
  calls (trace (wld (snd (Director_call failing_stage 2 "start" (VInt 7)
                            (DState (failing_first false) w0)))))
    = [("F", VInt 7); ("B", VInt 7)] /\
  fst (Director_call failing_stage 2 "start" (VInt 7)
         (DState (failing_first false) w0))
    = Raise (CoreLogicError 0).
Proof.
  split; [vm_compute; reflexivity|].
  split; vm_compute; reflexivity.
Qed.

(** ** The order of the records *)

Lemma names_of_app (l1 l2 : list value) :
  names_of (l1 ++ l2) = names_of l1 ++ names_of l2.
Proof. unfold names_of. apply map_app. Qed.

Section RecordOrder.
Context {U : Type} (heap : ref -> block U).
Implicit Types (s : dstate U) (data : value) (listener : ref).

Section OrderLoops.
Context (rec : string -> value -> M (dstate U) value).
Context (rec_flags : forall event_name data s r s',
  rec event_name data s = (r, s') -> flags s' = flags s).

Lemma await_chain_names event_name result chain return_results s rr' s' :
  await_chain rec event_name result chain return_results s = (Ret rr', s') ->
  flags s' = flags s /\
  names_of rr' =
    names_of return_results
      ++ replicate (length chain) (inr (VStr event_name)).
Proof.
  revert return_results s.
  induction chain as [|process chain IH]; intros rr s; simpl.
  - intros [= <- <-]. by rewrite app_nil_r.
  - intros H. apply bind_Ret in H as (output & s1 & Hc & H).
    apply rec_flags in Hc. apply IH in H as [Hf Hn].
    split; [congruence|]. rewrite Hn, names_of_app. simpl.
    by rewrite <- app_assoc.
Qed.

Lemma listener_loop_df_names subscribers data return_results events s
    looped s' :
  depth_first (director s) = true ->
  listener_loop heap rec subscribers data return_results events s
    = (Ret looped, s') ->
  flags s' = flags s /\
  snd looped = events /\
  exists counts,
    names_of (fst looped) =
      names_of return_results
        ++ runs_of (map (fun l => __name__ (heap l)) subscribers) counts /\
    Forall2 (fun l k => cls (heap l) <> ClsSplit -> k = 1%nat)
      subscribers counts.
Proof.
  revert data return_results s.
  induction subscribers as [|listener subscribers IH]; intros data rr s Hdf;
    simpl.
  - intros [= <- <-]. split; [done|]. split; [done|].
    exists []. split; [|constructor]. unfold runs_of. simpl.
    by rewrite app_nil_r.
  - intros H. apply bind_Ret in H as (completed & s1 & Ht & H).
    unfold create_task in Ht.
    destruct (_handle_listener heap listener data s) as [r1 s0] eqn:Eh.
    pose proof (handle_listener_trace _ _ _ _ _ _ Eh) as (Hd & _ & _).
    destruct r1 as [[result chain]|e| |]; try done; injection Ht as <- <-;
      unfold bind at 1 in H; simpl in H; rewrite Hd, Hdf in H.
    2:{ unfold bind, lift in H. simpl in H. done. }
    apply bind_Ret in H as (c & s2 & Hl & H).
    apply lift_Ret in Hl as [[= <-] ->].
    apply handle_listener_Ret in Eh as (_ & Hns & _).
    apply bind_Ret in H as (rr1 & s3 & Ha & H). simpl in Ha.
    apply await_chain_names in Ha as [Hf Hn].
    assert (Hdf3 : depth_first (director s3) = true).
    { unfold flags in Hf. injection Hf as -> _. by rewrite Hd. }
    apply IH in H as (Hf' & Hev & counts & Hn' & Hall); [|done].
    split.
    { rewrite Hf', Hf. unfold flags. by rewrite Hd. }
    split; [done|].
    exists (length chain :: counts). split.
    + rewrite Hn', Hn. unfold runs_of. simpl. by rewrite <- app_assoc.
    + constructor; [|done]. intros Hcls. by rewrite (Hns Hcls).
Qed.

Lemma listener_loop_bf_tasks subscribers data return_results events s r s' :
  depth_first (director s) = false ->
  listener_loop heap rec subscribers data return_results events s = (r, s') ->
  director s' = director s /\
  exists tasks,
    r = Ret (return_results, events ++ tasks) /\
    Forall2 (task_of heap) subscribers tasks.
Proof.
  revert events s.
  induction subscribers as [|listener subscribers IH]; intros events s Hbf;
    simpl.
  - intros [= <- <-]. split; [done|]. exists []. rewrite app_nil_r.
    split; [done|constructor].
  - unfold bind at 1. unfold create_task.
    destruct (_handle_listener heap listener data s) as [r1 s1] eqn:Eh.
    pose proof (handle_listener_trace _ _ _ _ _ _ Eh) as (Hd & Hset & _).
    assert (Hbf1 : depth_first (director s1) = false) by (by rewrite Hd).
    destruct r1 as [[result chain]|e| |]; try done;
      unfold bind at 1; simpl; rewrite Hbf1; intros H;
      apply IH in H as (Hd' & tasks & -> & Htasks); try done;
      (split; [congruence|]);
      eexists (_ :: tasks); rewrite <- app_assoc; simpl;
      (split; [reflexivity|]); (constructor; [|done]);
      (split; [done|]); simpl; intros result0 chain0 Heq Hcls; try done.
    injection Heq as <- <-.
    apply handle_listener_Ret in Eh as (_ & Hns & _). by rewrite (Hns Hcls).
Qed.

Lemma event_loop_names subscribers events return_results s rr' s' :
  Forall2 (task_of heap) subscribers events ->
  event_loop rec events return_results s = (Ret rr', s') ->
  flags s' = flags s /\
  exists counts,
    names_of rr' =
      names_of return_results
        ++ runs_of (map (fun l => __name__ (heap l)) subscribers) counts /\
    Forall2 (fun l k => cls (heap l) <> ClsSplit -> k = 1%nat)
      subscribers counts.
Proof.
  intros Htasks. revert return_results s.
  induction Htasks as [|listener [nm completed] subscribers events
                         [Hname Hone] _ IH];
    intros rr s; simpl.
  - intros [= <- <-]. split; [done|]. exists [].
    split; [|constructor]. unfold runs_of. simpl. by rewrite app_nil_r.
  - intros H. apply bind_Ret in H as ([result chain] & s1 & Hl & H).
    apply lift_Ret in Hl as [-> ->].
    apply bind_Ret in H as (rr1 & s2 & Ha & H). simpl in *.
    apply await_chain_names in Ha as [Hf Hn].
    apply IH in H as (Hf' & counts & Hn' & Hall).
    split; [congruence|].
    exists (length chain :: counts). split.
    + rewrite Hn', Hn, Hname. unfold runs_of. simpl.
      by rewrite <- app_assoc.
    + constructor; [|done]. intros Hcls. by apply (Hone result chain).
Qed.

Lemma call_body_names event_name data s subscribers records s' :
  flatten (director s) = false ->
  listeners (director s) !! event_name = Some subscribers ->
  call_body heap rec event_name data s = (Ret (VList records), s') ->
  exists counts,
    names_of records =
      runs_of (map (fun l => __name__ (heap l)) subscribers) counts /\
    Forall2 (fun l k => cls (heap l) <> ClsSplit -> k = 1%nat)
      subscribers counts.
Proof.
  intros Hfl Hsubs. unfold call_body. unfold bind at 1. simpl.
  rewrite Hsubs. intros H.
  apply bind_Ret in H as ([] & s1 & Hlog & H). injection Hlog as <-.
  apply bind_Ret in H as ([rr evs] & s2 & Hloop & H).
  apply bind_Ret in H as (rr' & s3 & Hev & H). simpl in Hev.
  apply bind_Ret in H as ([] & s4 & Hlog & H). injection Hlog as <-.
  unfold bind at 1 in H. simpl in H.
  assert (Hresult : flags s3 = flags s ->
                    records = rr').
  { intros Hf. unfold flags in Hf. injection Hf as _ Hf.
    rewrite Hf, Hfl in H. by injection H as <- _. }
  destruct (depth_first (director s)) eqn:Hdf.
  - apply listener_loop_df_names in Hloop as (Hf & Hevs & counts & Hn & Hall);
      [|done].
    simpl in Hevs, Hn. subst evs. simpl in Hev. injection Hev as <- <-.
    rewrite Hresult; [|by rewrite Hf]. by exists counts.
  - apply listener_loop_bf_tasks in Hloop as (Hd & tasks & Heq & Htasks);
      [|done].
    injection Heq as -> ->. simpl in Hev.
    apply (event_loop_names subscribers) in Hev as (Hf & counts & Hn & Hall);
      [|done].
    rewrite Hresult.
    + by exists counts.
    + rewrite Hf. unfold flags. by rewrite Hd.
Qed.

End OrderLoops.

Lemma Director_call_flags fuel event_name data s r s' :
  Director_call heap fuel event_name data s = (r, s') -> flags s' = flags s.
Proof.
  intros H.
  destruct (Director_call_same_configuration heap fuel event_name data
              s r s' I H) as (_ & _ & _ & H3 & H4 & _).
  unfold flags. by rewrite H3, H4.
Qed.

(** Without flattening, the records that a dispatch returns are grouped
    by subscriber, in subscription order, each under the name of its
    subscriber; a subscriber that is not a [Split] has exactly one
    record. *)
Theorem records_in_subscription_order
    fuel event_name data s subscribers records s' :
  flatten (director s) = false ->
  listeners (director s) !! event_name = Some subscribers ->
  Director_call heap fuel event_name data s = (Ret (VList records), s') ->
  exists counts,
    names_of records =
      runs_of (map (fun l => __name__ (heap l)) subscribers) counts /\
    Forall2 (fun l k => cls (heap l) <> ClsSplit -> k = 1%nat)
      subscribers counts.
Proof.
  intros Hfl Hsubs. destruct fuel as [|fuel]; [done|]. simpl.
  unfold with_semaphore. intros H.
  apply bind_Ret in H as ([] & s1 & Hacq & H).
  unfold acquire in Hacq.
  destruct (semaphore (director s)) as [|n]; [done|]. injection Hacq as <-.
  destruct (call_body _ _ _ _ _) as [[v|e| |] s2] eqn:Eb; try done.
  injection H as -> _.
  apply (call_body_names (Director_call heap fuel)
           (Director_call_flags fuel) event_name data _ subscribers) in Eb;
    done.
Qed.

End RecordOrder.

Lemma records_in_subscription_order_witness :
  (flatten fan_then_step = false /\
   listeners fan_then_step !! "start" = Some [2%nat; 0%nat] /\
   Director_call stage 3 "start" (VList [VInt 1; VInt 2])
       (DState fan_then_step w0)
     = (Ret (VList
          [chain_record "S" (VList [VInt 1; VInt 2])
             (VList [chain_record "B" (VInt 1) VNone]);
           chain_record "S" (VList [VInt 1; VInt 2])
             (VList [chain_record "B" (VInt 2) VNone]);
           chain_record "A" (VList [VInt 1; VInt 2]) VNone]),
        snd (Director_call stage 3 "start" (VList [VInt 1; VInt 2])
               (DState fan_then_step w0)))) /\
  exists counts,
    names_of
      [chain_record "S" (VList [VInt 1; VInt 2])
         (VList [chain_record "B" (VInt 1) VNone]);
       chain_record "S" (VList [VInt 1; VInt 2])
         (VList [chain_record "B" (VInt 2) VNone]);
       chain_record "A" (VList [VInt 1; VInt 2]) VNone]
      = runs_of (map (fun l => __name__ (stage l)) [2%nat; 0%nat]) counts /\
    Forall2 (fun l k => cls (stage l) <> ClsSplit -> k = 1%nat)
      [2%nat; 0%nat] counts.
Proof.
  assert (Hsubs : listeners fan_then_step !! "start" = Some [2%nat; 0%nat]).
  { vm_compute. reflexivity. }
  assert (Hrun : Director_call stage 3 "start" (VList [VInt 1; VInt 2])
       (DState fan_then_step w0)
     = (Ret (VList
          [chain_record "S" (VList [VInt 1; VInt 2])
             (VList [chain_record "B" (VInt 1) VNone]);
           chain_record "S" (VList [VInt 1; VInt 2])
             (VList [chain_record "B" (VInt 2) VNone]);
           chain_record "A" (VList [VInt 1; VInt 2]) VNone]),
        snd (Director_call stage 3 "start" (VList [VInt 1; VInt 2])
               (DState fan_then_step w0)))).
  { vm_compute. reflexivity. }
  split; [split; [reflexivity|by split]|].
  exact (records_in_subscription_order stage 3 "start"
           (VList [VInt 1; VInt 2]) (DState fan_then_step w0)
           [2%nat; 0%nat] _ _ eq_refl Hsubs Hrun).
Defined.

(** ** The plain action and the initialization check *)

Section Plain.
Context {U : Type}.
Implicit Types (self : block U) (data : value) (w : world U).

(** An [Action] as its constructor builds it, with the core logic of the
    class, returns its parser applied to the payload (the payload itself
    without a parser) after one attempt, whatever its retry count. *)
Theorem Action_returns_parsed_payload
    name parser retry_count retry_delay retry_on self data w v :
  Action_init ClsAction None name parser retry_count retry_delay retry_on
    = inr self ->
  match parser with Some p => p data | None => inr data end = inr v ->
  call self data w =
    (Ret v, World (ustate w) (trace w ++ [EvForward name data])).
Proof.
  intros Hinit Hparse. apply Action_init_inv in Hinit as (_ & _ & ->).
  unfold call, Action_call. simpl.
  assert (Ha : forall self0 : block U,
    self0 = Block ClsAction name
              (match parser with Some p => p | None => fun x => inr x end)
              retry_count retry_delay retry_on true None ->
    attempt self0 data w =
      (Ret v, World (ustate w) (trace w ++ [EvForward name data]))).
  { intros self0 ->. rewrite attempt_own_forward by done. simpl.
    destruct parser as [p|]; [by rewrite Hparse|].
    by injection Hparse as <-. }
  destruct (Z.to_nat retry_count) as [|n]; simpl.
  - by apply Ha.
  - unfold try_except. by rewrite (Ha _ eq_refl).
Qed.


End Plain.

Lemma Action_returns_parsed_payload_witness :
  (Action_init ClsAction None "A" (Some wrapping_parser) 3 0 None
     = inr wrapping_action /\
   wrapping_parser (VInt 7) = inr (VList [VInt 7])) /\
  call wrapping_action (VInt 7) w0 =
    (Ret (VList [VInt 7]),
     World (ustate w0) (trace w0 ++ [EvForward "A" (VInt 7)])).
Proof.
  split; [split; reflexivity|].
  apply (Action_returns_parsed_payload "A" (Some wrapping_parser) 3 0 None);
    reflexivity.
Defined.

